(** * Differential-privacy demonstration notebooks: a verification model

    The repository consists of three Jupyter notebooks:

    - "Implementing Geometric Mechanism for epsilon-DP",
    - "Implementing Laplace for epsilon-DP",
    - "Exploring the Tradeoffs Between Quality and Privacy".

    Their code cells are embedded here as Rocq functions.

    Modelling conventions.
    - Integer tables (pandas DataFrames of dtype int, numpy integer arrays)
      have cells in [Z]; the counts are bounded by the number of records
      (100 or 1000) and the fixed-width representation is not modelled.
    - Finite floating-point cells are modelled by rationals [Q] (every finite
      binary64 value is a rational; rounding of the arithmetic is not
      modelled).  The result of a true division, which may be [inf] or
      [nan], has its own type [pyfloat].
    - The scalars of the calibration and of the epsilon grid are binary64
      numbers, modelled by Rocq's primitive floats with their IEEE 754
      operations (module [Binary64]); [np.exp], [np.log10] and [10**x],
      which the C library computes, are parameters.
    - What the calibration checks and raises does not depend on rounding:
      for that it is also given over the real numbers (module
      [Calibrator]).  The rows of the tradeoff simulation, whose noise is a
      variate of a continuous distribution, are over the real numbers too.
    - The random source is a parameter: the cells take the noise that was
      drawn as an input.
    - Python names bound to DataFrames are locations of a heap, so that
      [a = b] followed by an in-place update of [a] is visible through [b]. *)

From Stdlib Require Import ZArith QArith Qround Qabs List Bool String Lia Lra.
From Stdlib Require Import Reals.
From Stdlib Require Lqa.
From Stdlib Require Floats.
Import ListNotations.

(** ** Python results and exceptions *)

Module Py.

(** [ZeroDivisionError], [ValueError] and [NameError] are Python's own.
    [InvalidParameterError] is the name used by the specification; no cell
    of the notebooks raises it. *)
Inductive exn : Type :=
| ZeroDivisionError
| ValueError
| NameError
| InvalidParameterError.

Inductive result (A : Type) : Type :=
| Ok (a : A)
| Raise (e : exn).

Arguments Ok {A} a.
Arguments Raise {A} e.

End Py.

Import Py.

(** ** Tables *)

Module Frame.

(** A value of numpy's float64 as produced by a true division. *)
Inductive pyfloat : Type :=
| Finite (q : Q)
| PosInf
| NegInf
| NaN.

(** A DataFrame or a two-dimensional ndarray, by dtype; labels are fixed by
    the reindexing done when the true table is built and are not kept. *)
Inductive frame : Type :=
| IntFrame (rows : list (list Z))
| FloatFrame (rows : list (list Q)).

Inductive scalar : Type :=
| IntVal (z : Z)
| FloatVal (q : Q).

Fixpoint zip_with {A B C : Type} (f : A -> B -> C)
  (xs : list A) (ys : list B) : list C :=
  match xs, ys with
  | x :: xs', y :: ys' => f x y :: zip_with f xs' ys'
  | _, _ => []
  end.

Definition cellwise {A B C : Type} (f : A -> B -> C)
  (a : list (list A)) (b : list (list B)) : list (list C) :=
  zip_with (zip_with f) a b.

Definition cellmap {A B : Type} (f : A -> B) (a : list (list A)) : list (list B) :=
  map (map f) a.

(** Row lengths; two tables have the same [.shape] when these agree. *)
Definition row_lengths {A : Type} (a : list (list A)) : list nat :=
  map (@List.length A) a.

Definition shape (f : frame) : list nat :=
  match f with
  | IntFrame rows => row_lengths rows
  | FloatFrame rows => row_lengths rows
  end.

Fixpoint shape_eqb (s t : list nat) : bool :=
  match s, t with
  | [], [] => true
  | m :: s', n :: t' => Nat.eqb m n && shape_eqb s' t'
  | _, _ => false
  end.

(** The cells of a table as floats. *)
Definition values (f : frame) : list (list Q) :=
  match f with
  | IntFrame rows => cellmap inject_Z rows
  | FloatFrame rows => rows
  end.

(** Element-wise arithmetic on operands of one shape: integer when both
    operands are integer, float otherwise. *)
Definition elementwise (fz : Z -> Z -> Z) (fq : Q -> Q -> Q) (a b : frame) : frame :=
  match a, b with
  | IntFrame x, IntFrame y => IntFrame (cellwise fz x y)
  | _, _ => FloatFrame (cellwise fq (values a) (values b))
  end.

(** Operands of different shapes raise [ValueError].  The notebooks draw
    the noise with [truetab.shape], so that their operands always agree in
    shape; broadcasting of a one-row or one-column operand is not modelled. *)
Definition binop (fz : Z -> Z -> Z) (fq : Q -> Q -> Q) (a b : frame) : result frame :=
  if shape_eqb (shape a) (shape b) then Ok (elementwise fz fq a b)
  else Raise ValueError.

(** [a + b] *)
Definition add : frame -> frame -> result frame := binop Z.add Qplus.

(** [a - b] *)
Definition sub : frame -> frame -> result frame := binop Z.sub Qminus.

(** [np.abs(a)] *)
Definition abs (a : frame) : frame :=
  match a with
  | IntFrame rows => IntFrame (cellmap Z.abs rows)
  | FloatFrame rows => FloatFrame (cellmap Qabs rows)
  end.

Definition Qltb (x y : Q) : bool := negb (Qle_bool y x).

Definition clamp_int (z : Z) : Z := if (z <? 0)%Z then 0%Z else z.

Definition clamp_float (q : Q) : Q := if Qltb q 0 then 0%Q else q.

(** The new content of [a] after [a[a < 0] = 0]. *)
Definition setitem_neg_zero (a : frame) : frame :=
  match a with
  | IntFrame rows => IntFrame (cellmap clamp_int rows)
  | FloatFrame rows => FloatFrame (cellmap clamp_float rows)
  end.

(** Round half to even, the rule of numpy's [round]. *)
Definition round_half_even (q : Q) : Z :=
  let f := Qfloor q in
  let r := (q - inject_Z f)%Q in
  if Qltb r (1 # 2) then f
  else if Qltb (1 # 2) r then (f + 1)%Z
  else if Z.even f then f else (f + 1)%Z.

(** [a.round()]: integer columns are returned as they are. *)
Definition round (a : frame) : frame :=
  match a with
  | IntFrame rows => IntFrame rows
  | FloatFrame rows => FloatFrame (cellmap (fun q => inject_Z (round_half_even q)) rows)
  end.

(** Conversion of a float to an integer truncates toward zero. *)
Definition trunc (q : Q) : Z := if Qltb q 0 then Qceiling q else Qfloor q.

(** [a.astype(np.int)] *)
Definition astype_int (a : frame) : frame :=
  match a with
  | IntFrame rows => IntFrame rows
  | FloatFrame rows => IntFrame (cellmap trunc rows)
  end.

(** True division of two numbers in float64: a zero divisor gives [nan]
    for a zero dividend and a signed infinity otherwise; no exception. *)
Definition truediv (a b : Q) : pyfloat :=
  if Qeq_bool b 0 then
    if Qeq_bool a 0 then NaN
    else if Qltb a 0 then NegInf else PosInf
  else Finite (a / b).

(** [a / b] on tables. *)
Definition div (a b : frame) : result (list (list pyfloat)) :=
  if shape_eqb (shape a) (shape b) then Ok (cellwise truediv (values a) (values b))
  else Raise ValueError.

(** [DataFrame.sum()]: one sum per column. *)
Fixpoint add_rows {A : Type} (plus : A -> A -> A) (a b : list A) : list A :=
  match a, b with
  | [], _ => b
  | _, [] => a
  | x :: a', y :: b' => plus x y :: add_rows plus a' b'
  end.

Definition column_sums {A : Type} (plus : A -> A -> A) (rows : list (list A)) : list A :=
  fold_right (add_rows plus) [] rows.

(** [Series.sum()] *)
Definition series_sum {A : Type} (plus : A -> A -> A) (zero : A) (s : list A) : A :=
  fold_right plus zero s.

(** [a.sum().sum()] *)
Definition sum_sum (a : frame) : scalar :=
  match a with
  | IntFrame rows => IntVal (series_sum Z.add 0%Z (column_sums Z.add rows))
  | FloatFrame rows => FloatVal (series_sum Qplus 0%Q (column_sums Qplus rows))
  end.

Definition scalar_value (s : scalar) : Q :=
  match s with
  | IntVal z => inject_Z z
  | FloatVal q => q
  end.

Definition scalar_mul (k : Z) (s : scalar) : scalar :=
  match s with
  | IntVal z => IntVal (k * z)
  | FloatVal q => FloatVal (inject_Z k * q)
  end.

End Frame.

Import Frame.

(** ** The true table

    [truetab = pd.crosstab(index=myrecs['Occupation'], columns=myrecs['Sex'])]
    followed by [truetab.reindex(index=occvalid, columns=sexvalid, fill_value=0)]:
    one row per valid occupation, one column per valid sex, each cell the
    number of records of that occupation and sex. *)

Module Population.

Record person : Type := {
  Sex : string;
  Age : Z;
  Married : string;
  Earnings : Z;
  Occupation : string
}.

Definition sexvalid : list string := ["M"; "F"]%string.

Definition marrvalid : list string := ["M"; "W"; "S"; "D"; "N"]%string.

Definition occvalid : list string :=
  ["Statistician"; "Economist"; "Geographer"; "IT Specialist"; "Unicorn Wrangler"]%string.

Definition count_cell (myrecs : list person) (occ sex : string) : Z :=
  Z.of_nat (List.length (filter (fun r => String.eqb (Occupation r) occ && String.eqb (Sex r) sex) myrecs)).

Definition truetab (myrecs : list person) : frame :=
  IntFrame (map (fun occ => map (fun sex => count_cell myrecs occ sex) sexvalid) occvalid).

End Population.

(** ** The table cells of the Geometric and Laplace notebooks *)

Module Notebook.

Definition loc : Type := nat.

(** The objects alive during a cell, in order of creation. *)
Definition heap : Type := list frame.

(** A statement: it may raise, and otherwise returns a value and the heap
    it leaves. *)
Definition stmt (A : Type) : Type := heap -> result (A * heap).

Definition ret {A : Type} (a : A) : stmt A := fun h => Ok (a, h).

Definition seq {A B : Type} (c : stmt A) (k : A -> stmt B) : stmt B :=
  fun h => match c h with
           | Ok (a, h') => k a h'
           | Raise e => Raise e
           end.

Definition lift {A : Type} (r : result A) : stmt A :=
  fun h => match r with
           | Ok a => Ok (a, h)
           | Raise e => Raise e
           end.

(** A new object; its location is the next free one. *)
Definition new (v : frame) : stmt loc := fun h => Ok (List.length h, h ++ [v]).

(** The current content of an object. *)
Definition load (l : loc) : stmt frame :=
  fun h => match nth_error h l with
           | Some v => Ok (v, h)
           | None => Raise NameError
           end.

Fixpoint update (h : heap) (l : loc) (v : frame) : heap :=
  match h, l with
  | [], _ => []
  | _ :: h', O => v :: h'
  | x :: h', S l' => x :: update h' l' v
  end.

(** In-place update of an object. *)
Definition store (l : loc) (v : frame) : stmt unit :=
  fun h => match nth_error h l with
           | Some _ => Ok (tt, update h l v)
           | None => Raise NameError
           end.

Declare Scope stmt_scope.
Delimit Scope stmt_scope with stmt.
Notation "x <- c ;; k" := (seq c (fun x => k))
  (at level 61, c at next level, right associativity) : stmt_scope.
Notation "c ;;; k" := (seq c (fun _ => k))
  (at level 61, right associativity) : stmt_scope.

Local Open Scope stmt_scope.

(** [x[x < 0] = 0] *)
Definition setitem_neg_zero_inplace (x : loc) : stmt unit :=
  v <- load x ;;
  store x (setitem_neg_zero v).

(** The names bound by the cells that build the published table and
    measure its error. *)
Record names : Type := {
  noisytab : loc;
  noisytabpost : loc;
  errortab : loc;
  pcterrortab : list (list pyfloat);
  errorsum : scalar;
  truesum : scalar;
  errorrel : pyfloat
}.

(** The error measures, the same statements in both notebooks:
[[
errortab=np.abs(noisytabpost-truetab)
pcterrortab=errortab/truetab
errorsum=errortab.sum().sum()
truesum=truetab.sum().sum()
errorrel=100*errorsum/truesum
]]
    The [print] statements between them are not modelled.  One of them
    formats [errorsum] with ['{0:1d}'], which takes an integer: that is
    what [errorsum] is when the published and the true table are of
    integer dtype, as they are in the runs of the notebooks. *)
Definition measure_error (truetab noisytab noisytabpost : loc) : stmt names :=
  p <- load noisytabpost ;;
  t <- load truetab ;;
  d <- lift (sub p t) ;;
  errortab <- new (abs d) ;;
  e <- load errortab ;;
  t <- load truetab ;;
  pcterrortab <- lift (div e t) ;;
  e <- load errortab ;;
  let errorsum := sum_sum e in
  t <- load truetab ;;
  let truesum := sum_sum t in
  let errorrel := truediv (scalar_value (scalar_mul 100 errorsum)) (scalar_value truesum) in
  ret {| noisytab := noisytab;
         noisytabpost := noisytabpost;
         errortab := errortab;
         pcterrortab := pcterrortab;
         errorsum := errorsum;
         truesum := truesum;
         errorrel := errorrel |}.

(** Geometric notebook:
[[
noisytab=truetab+noise
noisytabpost=noisytab
noisytabpost[noisytabpost < 0]=0
]]
    The second statement binds a second name to the same object. *)
Definition geometric_cell (truetab noise : loc) : stmt names :=
  t <- load truetab ;;
  n <- load noise ;;
  s <- lift (add t n) ;;
  noisytab <- new s ;;
  let noisytabpost := noisytab in
  setitem_neg_zero_inplace noisytabpost ;;;
  measure_error truetab noisytab noisytabpost.

(** Laplace notebook:
[[
noisytab=truetab+noise
noisytabpost=noisytab.round().astype(np.int)
noisytabpost[noisytabpost < 0]=0
]]
    Here [round] and [astype] build a new object. *)
Definition laplace_cell (truetab noise : loc) : stmt names :=
  t <- load truetab ;;
  n <- load noise ;;
  s <- lift (add t n) ;;
  noisytab <- new s ;;
  v <- load noisytab ;;
  noisytabpost <- new (astype_int (round v)) ;;
  setitem_neg_zero_inplace noisytabpost ;;;
  measure_error truetab noisytab noisytabpost.

(** What the names hold once the cells have run. *)
Record report : Type := {
  truetab_value : frame;
  noisytab_value : frame;
  noisytabpost_value : frame;
  errortab_value : frame;
  pcterrortab_value : list (list pyfloat);
  errorsum_value : scalar;
  truesum_value : scalar;
  errorrel_value : pyfloat
}.

Definition read_out (truetab : loc) (n : names) : stmt report :=
  t <- load truetab ;;
  a <- load (noisytab n) ;;
  b <- load (noisytabpost n) ;;
  e <- load (errortab n) ;;
  ret {| truetab_value := t;
         noisytab_value := a;
         noisytabpost_value := b;
         errortab_value := e;
         pcterrortab_value := pcterrortab n;
         errorsum_value := errorsum n;
         truesum_value := truesum n;
         errorrel_value := errorrel n |}.

(** A run from a true table and the noise that was drawn for it. *)
Definition run (cell : loc -> loc -> stmt names) (truetab noise : frame) : result report :=
  match (n <- cell 0%nat 1%nat ;; read_out 0%nat n) [truetab; noise] with
  | Ok (r, _) => Ok r
  | Raise e => Raise e
  end.

Definition run_geometric : frame -> frame -> result report := run geometric_cell.

Definition run_laplace : frame -> frame -> result report := run laplace_cell.

(** The post-processing policies as functions of the raw noisy table. *)
Definition publish_geometric (noisy : frame) : frame := setitem_neg_zero noisy.

Definition publish_laplace (noisy : frame) : frame :=
  setitem_neg_zero (astype_int (round noisy)).

(** [np.abs(published-truetab)] for tables of one shape. *)
Definition cell_errors (published truetab : frame) : frame :=
  abs (elementwise Z.sub Qminus published truetab).

(** The report as a function of the true table, of what [noisytab] holds
    in the end and of the published table. *)
Definition measured (truetab noisytab noisytabpost : frame) : report :=
  let errortab := cell_errors noisytabpost truetab in
  let errorsum := sum_sum errortab in
  let truesum := sum_sum truetab in
  {| truetab_value := truetab;
     noisytab_value := noisytab;
     noisytabpost_value := noisytabpost;
     errortab_value := errortab;
     pcterrortab_value := cellwise truediv (values errortab) (values truetab);
     errorsum_value := errorsum;
     truesum_value := truesum;
     errorrel_value :=
       truediv (scalar_value (scalar_mul 100 errorsum)) (scalar_value truesum) |}.

(** The raw noisy table [truetab+noise]. *)
Definition raw_noisy (truetab noise : frame) : frame :=
  elementwise Z.add Qplus truetab noise.

End Notebook.

Import Notebook.

(** ** Calibration

    Both notebooks compute the parameter of the noise distribution from
    Python floats; the division of Python floats raises
    [ZeroDivisionError] on a zero divisor and nothing else is checked.
    In this module the floats are read as real numbers; [Binary64] below
    has them as the machine computes them. *)

Module Calibrator.

Local Open Scope R_scope.

(** [scale=sensitivity/epsilon] *)
Definition scale (sensitivity epsilon : R) : result R :=
  if Req_dec_T epsilon 0 then Raise ZeroDivisionError
  else Ok (sensitivity / epsilon).

(** [probability=1-np.exp(-epsilon/sensitivity)] *)
Definition probability (sensitivity epsilon : R) : result R :=
  if Req_dec_T sensitivity 0 then Raise ZeroDivisionError
  else Ok (1 - exp (- epsilon / sensitivity)).

End Calibrator.

(** ** The quality-privacy tradeoff simulation *)

Module Tradeoff.

Local Open Scope R_scope.

(** One row of the simulation's data frame. *)
Record row : Type := {
  epsilon : R;
  sensitivity : R;
  scale : R;
  noise : R;
  L1error : R
}.

(** [pd.Series(epsset).repeat(numrecs)] *)
Definition repeat_each (epsset : list R) (numrecs : nat) : list R :=
  flat_map (fun e => repeat e numrecs) epsset.

(** [[
epsilon = pd.Series(epsset).repeat(numrecs)
df=pd.DataFrame({'epsilon' : epsilon,'sensitivity' : sensitivity, 'scale' : sensitivity/epsilon})
df['noise'] = np.random.laplace(loc=0,scale=df['scale'])
df['L1error'] = np.abs(df['noise'])
]]
    [laplace i b] stands for the variate that the random source returns
    for row [i] when asked for scale [b].  The division is that of a
    Series and raises nothing; the values of [epsset] are powers of 10 and
    never zero. *)
Definition simulate (laplace : nat -> R -> R) (epsset : list R)
  (sensitivity : R) (numrecs : nat) : list row :=
  let epsilon := repeat_each epsset numrecs in
  map (fun ie : nat * R =>
         let scale := sensitivity / snd ie in
         let noise := laplace (fst ie) scale in
         {| epsilon := snd ie;
            sensitivity := sensitivity;
            scale := scale;
            noise := noise;
            L1error := Rabs noise |})
      (combine (List.seq 0 (List.length epsilon)) epsilon).

End Tradeoff.

(** ** Python and numpy floats

    The scalars of the calibration and of the epsilon grid are binary64
    numbers.  Here they are Rocq's primitive floats, whose [+], [-], [*]
    and [/] are the IEEE 754 operations (round to nearest, ties to even)
    that Python and numpy perform.  [np.exp], [np.log10] and [10**x] come
    from the C library, which does not round correctly: they are
    parameters of the definitions that call them. *)

Module Binary64.

Import Floats.

Local Open Scope float_scope.

(** [scale=sensitivity/epsilon]: the division of Python floats raises
    [ZeroDivisionError] when the divisor is [0.0] or [-0.0]. *)
Definition scale (sensitivity epsilon : float) : result float :=
  if epsilon =? 0 then Raise ZeroDivisionError
  else Ok (sensitivity / epsilon).

(** [probability=1-np.exp(-epsilon/sensitivity)] *)
Definition probability (np_exp : float -> float) (sensitivity epsilon : float) :
  result float :=
  if sensitivity =? 0 then Raise ZeroDivisionError
  else Ok (1 - np_exp (- epsilon / sensitivity)).

(** The float of an integer ([epscnt], and the index in numpy's fill
    loop), rounded to nearest. *)
Definition of_int (z : Z) : float :=
  SF2Prim (binary_normalize prec emax z 0 false).

(** The ceiling of a finite float as an integer; none for [nan] and the
    infinities. *)
Definition ceil (x : float) : option Z :=
  match Prim2SF x with
  | S754_zero _ => Some 0%Z
  | S754_finite s m e =>
      let a := if s then Zneg m else Zpos m in
      Some (if (0 <=? e)%Z then a * 2 ^ e else - ((- a) / 2 ^ (- e)))%Z
  | S754_infinity _ | S754_nan => None
  end.

(** The loop that fills the array of [np.arange]: the first two elements
    are [start] and [start+step], element [i] is [start + i*delta] with
    [delta] the difference of the first two. *)
Definition fill (start next : float) (len : nat) : list float :=
  let delta := next - start in
  map (fun i : nat =>
         match i with
         | O => start
         | S O => next
         | _ => start + of_int (Z.of_nat i) * delta
         end)
      (List.seq 0 len).

(** [np.arange(start, stop, step)] on floats.  The length is the ceiling
    of [(stop - start)/step], computed in binary64; a length <= 0 gives the
    empty array.  When the quotient is [nan] or infinite no length can be
    computed and no array is returned. *)
Definition arange (start stop step : float) : option (list float) :=
  match ceil ((stop - start) / step) with
  | Some len => Some (fill start (start + step) (Z.to_nat len))
  | None => None
  end.

(** The exponents of the grid,
[[
np.arange(np.log10(epsmin),
          np.log10(epsmax)+(np.log10(epsmax)-np.log10(epsmin))/epscnt,
          (np.log10(epsmax)-np.log10(epsmin))/epscnt)
]]
    as a function of the two logarithms.  These are numpy floats: the
    division by [epscnt] raises nothing. *)
Definition epsset_exponents (lmin lmax : float) (epscnt : Z) : option (list float) :=
  let step := (lmax - lmin) / of_int epscnt in
  arange lmin (lmax + step) step.

(** [epsset=[10**x for x in np.arange(...)]] *)
Definition epsset (np_log10 pow10 : float -> float) (epsmin epsmax : float)
  (epscnt : Z) : option (list float) :=
  option_map (map pow10)
             (epsset_exponents (np_log10 epsmin) (np_log10 epsmax) epscnt).









(** A function that agrees with [np.exp] at -1 (0.36787944117144233) and
    at 0, where the notebooks call it. *)
Definition exp_sample (x : float) : float :=
  if x =? -1 then 0x1.78b56362cef38p-2 else 1.

(** The float 1 as significand and exponent. *)
Definition SF1 : spec_float := S754_finite false 4503599627370496 (-52).

(** The sign of a float that is not [nan]. *)
Definition has_sign (s : bool) (x : spec_float) : Prop :=
  match x with
  | S754_zero s' | S754_infinity s' | S754_finite s' _ _ => s' = s
  | S754_nan => False
  end.

End Binary64.

(** ** The relative error as the specification words it

    [absoluteError / true], [+inf] when the true cell is 0 and the absolute
    error is positive, [0] when both are 0. *)

Definition spec_relative_error (absolute true : Z) : pyfloat :=
  if (true =? 0)%Z then
    if (absolute =? 0)%Z then Finite 0 else PosInf
  else Finite (inject_Z absolute / inject_Z true).

(** ** Predicates on tables *)

Definition all_cells {A : Type} (P : A -> Prop) (rows : list (list A)) : Prop :=
  Forall (Forall P) rows.

(** Every cell is at least zero. *)
Definition nonnegative (a : frame) : Prop :=
  match a with
  | IntFrame rows => all_cells (fun z => (0 <= z)%Z) rows
  | FloatFrame rows => all_cells (fun q => (0 <= q)%Q) rows
  end.

(** The dtype is integer. *)
Definition integer_valued (a : frame) : Prop :=
  match a with
  | IntFrame _ => True
  | FloatFrame _ => False
  end.

(** Cell by cell comparison of two tables of one shape. *)
Definition frame_le (a b : frame) : Prop :=
  Forall2 (Forall2 Qle) (values a) (values b).

Definition scalar_le (a b : scalar) : Prop :=
  (scalar_value a <= scalar_value b)%Q.

(** Sum of all cells, row after row. *)
Definition total (rows : list (list Z)) : Z :=
  fold_right (fun r acc => (fold_right Z.add 0 r + acc)%Z) 0%Z rows.

Definition totalQ (rows : list (list Q)) : Q :=
  fold_right (fun r acc => (fold_right Qplus 0 r + acc)%Q) 0%Q rows.

(** ** Scenario data *)

Definition scenario1_truetab : frame :=
  IntFrame [[18; 19]; [13; 16]; [10; 10]; [8; 5]; [0; 1]]%Z.

Definition scenario1_noise : frame :=
  IntFrame [[0; -1]; [-3; 1]; [-1; -2]; [3; -3]; [0; 0]]%Z.

Definition scenario1_published : frame :=
  IntFrame [[18; 18]; [10; 17]; [9; 8]; [11; 2]; [0; 1]]%Z.

Definition unicorn_truetab : frame := IntFrame [[0; 1]]%Z.

Definition unicorn_noise : frame := IntFrame [[-1; 0]]%Z.

(** ** Noise draws and their summary

    The variates returned by the random source are inputs of the model. *)

Module Sampling.

(** [[
noise = np.random.geometric(probability,truetab.shape)-np.random.geometric(probability,truetab.shape)
]]
    [first] and [second] stand for the two arrays of geometric variates,
    whose support starts at 1. *)
Definition geometric_noise (first second : frame) : result frame := sub first second.

End Sampling.

(** ** Further predicates *)

(** A record whose occupation and sex are among the valid labels; the
    reindexing keeps the counts of these records only. *)
Definition valid_record (r : Population.person) : bool :=
  existsb (String.eqb (Population.Occupation r)) Population.occvalid &&
  existsb (String.eqb (Population.Sex r)) Population.sexvalid.

(** A relative error that is [nan], [+inf] or a finite number >= 0. *)
Definition relative_error_nonneg (c : pyfloat) : Prop :=
  match c with
  | Finite q => (0 <= q)%Q
  | PosInf => True
  | NegInf => False
  | NaN => True
  end.

(** The names and the heap left by the statements that measure the error
    of an integer table [p] published for the true table [t], run on the
    heap that holds [t] and [p]. *)
Definition measured_names (t p : list (list Z)) : names * heap :=
  let e := cell_errors (IntFrame p) (IntFrame t) in
  ({| noisytab := 1%nat;
      noisytabpost := 1%nat;
      errortab := 2%nat;
      pcterrortab := cellwise truediv (values e) (values (IntFrame t));
      errorsum := sum_sum e;
      truesum := sum_sum (IntFrame t);
      errorrel := truediv (scalar_value (scalar_mul 100 (sum_sum e)))
                          (scalar_value (sum_sum (IntFrame t))) |},
   [IntFrame t; IntFrame p; e]).

(** * Properties *)

Local Open Scope Z_scope.

(** ** Shapes *)

Lemma shape_eqb_refl (s : list nat) : shape_eqb s s = true.
Proof.
  induction s as [|n s IH]; simpl; [reflexivity|].
  now rewrite Nat.eqb_refl, IH.
Qed.

Lemma shape_eqb_eq (s t : list nat) : shape_eqb s t = true <-> s = t.
Proof.
  split; [|intros ->; apply shape_eqb_refl].
  revert t; induction s as [|m s IH]; intros [|n t]; simpl; try discriminate; auto.
  intros H. apply andb_prop in H as [H1 H2].
  apply Nat.eqb_eq in H1. f_equal; auto.
Qed.

Lemma length_zip_with {A B C : Type} (f : A -> B -> C) (xs : list A) (ys : list B) :
  List.length xs = List.length ys -> List.length (zip_with f xs ys) = List.length xs.
Proof.
  revert ys; induction xs as [|x xs IH]; intros [|y ys]; simpl; try discriminate; auto.
Qed.

Lemma row_lengths_cellwise {A B C : Type} (f : A -> B -> C)
  (a : list (list A)) (b : list (list B)) :
  row_lengths a = row_lengths b -> row_lengths (cellwise f a b) = row_lengths a.
Proof.
  unfold cellwise, row_lengths.
  revert b; induction a as [|r a IH]; intros [|r' b]; simpl; try discriminate; auto.
  intros H. injection H as H1 H2. f_equal; auto using length_zip_with.
Qed.

Lemma row_lengths_cellmap {A B : Type} (f : A -> B) (a : list (list A)) :
  row_lengths (cellmap f a) = row_lengths a.
Proof.
  unfold cellmap, row_lengths. rewrite map_map.
  apply map_ext. intros r. apply length_map.
Qed.

Lemma shape_values (a : frame) : row_lengths (values a) = shape a.
Proof. destruct a; simpl; [apply row_lengths_cellmap | reflexivity]. Qed.

Lemma shape_elementwise fz fq (a b : frame) :
  shape a = shape b -> shape (elementwise fz fq a b) = shape a.
Proof.
  intros H.
  assert (Hv : row_lengths (values a) = row_lengths (values b))
    by now rewrite !shape_values.
  destruct a, b; simpl in *;
    try (apply row_lengths_cellwise; assumption);
    rewrite row_lengths_cellwise by assumption;
    try apply row_lengths_cellmap; reflexivity.
Qed.

Lemma shape_setitem_neg_zero (a : frame) : shape (setitem_neg_zero a) = shape a.
Proof. destruct a; simpl; apply row_lengths_cellmap. Qed.

Lemma shape_abs (a : frame) : shape (abs a) = shape a.
Proof. destruct a; simpl; apply row_lengths_cellmap. Qed.

Lemma shape_round (a : frame) : shape (round a) = shape a.
Proof. destruct a; simpl; [reflexivity | apply row_lengths_cellmap]. Qed.

Lemma shape_astype_int (a : frame) : shape (astype_int a) = shape a.
Proof. destruct a; simpl; [reflexivity | apply row_lengths_cellmap]. Qed.

Lemma binop_same_shape fz fq (a b : frame) :
  shape a = shape b -> binop fz fq a b = Ok (elementwise fz fq a b).
Proof.
  intros H. unfold binop. now rewrite (proj2 (shape_eqb_eq _ _) H).
Qed.

Lemma binop_other_shape fz fq (a b : frame) :
  shape a <> shape b -> binop fz fq a b = Raise ValueError.
Proof.
  intros H. unfold binop.
  destruct (shape_eqb (shape a) (shape b)) eqn:E; [|reflexivity].
  apply shape_eqb_eq in E. contradiction.
Qed.

Lemma div_same_shape (a b : frame) :
  shape a = shape b -> div a b = Ok (cellwise truediv (values a) (values b)).
Proof.
  intros H. unfold div. now rewrite (proj2 (shape_eqb_eq _ _) H).
Qed.

(** ** The cells as functions of their inputs *)

Lemma add_same_shape (t n : frame) :
  shape t = shape n -> add t n = Ok (raw_noisy t n).
Proof. apply binop_same_shape. Qed.

Lemma shape_raw_noisy (t n : frame) :
  shape t = shape n -> shape (raw_noisy t n) = shape t.
Proof. apply shape_elementwise. Qed.

Lemma sub_published (p t : frame) :
  shape p = shape t -> sub p t = Ok (elementwise Z.sub Qminus p t).
Proof. apply binop_same_shape. Qed.

Lemma run_geometric_ok (t n : frame) :
  shape t = shape n ->
  run_geometric t n =
  Ok (measured t (publish_geometric (raw_noisy t n)) (publish_geometric (raw_noisy t n))).
Proof.
  intros H.
  assert (Hp : shape (publish_geometric (raw_noisy t n)) = shape t)
    by (unfold publish_geometric; rewrite shape_setitem_neg_zero; now apply shape_raw_noisy).
  unfold run_geometric, run, geometric_cell, measure_error, read_out,
    setitem_neg_zero_inplace, seq, load, store, new, lift, ret.
  cbn [nth_error List.length app update].
  rewrite (add_same_shape _ _ H).
  cbn [nth_error List.length app update].
  fold (publish_geometric (raw_noisy t n)).
  rewrite (sub_published _ _ Hp).
  cbn [nth_error List.length app update].
  rewrite div_same_shape
    by (rewrite shape_abs, shape_elementwise; assumption).
  reflexivity.
Qed.

Lemma run_laplace_ok (t n : frame) :
  shape t = shape n ->
  run_laplace t n =
  Ok (measured t (raw_noisy t n) (publish_laplace (raw_noisy t n))).
Proof.
  intros H.
  assert (Hp : shape (publish_laplace (raw_noisy t n)) = shape t)
    by (unfold publish_laplace;
        rewrite shape_setitem_neg_zero, shape_astype_int, shape_round;
        now apply shape_raw_noisy).
  unfold run_laplace, run, laplace_cell, measure_error, read_out,
    setitem_neg_zero_inplace, seq, load, store, new, lift, ret.
  cbn [nth_error List.length app update].
  rewrite (add_same_shape _ _ H).
  cbn [nth_error List.length app update].
  fold (publish_laplace (raw_noisy t n)).
  rewrite (sub_published _ _ Hp).
  cbn [nth_error List.length app update].
  rewrite div_same_shape
    by (rewrite shape_abs, shape_elementwise; assumption).
  reflexivity.
Qed.

Lemma run_other_shape (t n : frame) :
  shape t <> shape n ->
  run_geometric t n = Raise ValueError /\ run_laplace t n = Raise ValueError.
Proof.
  intros H.
  unfold run_geometric, run_laplace, run, geometric_cell, laplace_cell,
    seq, load, lift.
  cbn [nth_error].
  unfold add. rewrite (binop_other_shape _ _ _ _ H). split; reflexivity.
Qed.

(** ** Cells *)

Lemma clamp_int_max (z : Z) : clamp_int z = Z.max z 0.
Proof. unfold clamp_int. destruct (Z.ltb_spec z 0); lia. Qed.

Lemma clamp_int_nonneg (z : Z) : (0 <= clamp_int z)%Z.
Proof. rewrite clamp_int_max. lia. Qed.

Lemma clamp_int_idem (z : Z) : clamp_int (clamp_int z) = clamp_int z.
Proof. rewrite !clamp_int_max. lia. Qed.

Lemma clamp_int_error (z t : Z) :
  (0 <= t)%Z -> (Z.abs (clamp_int z - t) <= Z.abs (z - t))%Z.
Proof. intros H. rewrite clamp_int_max. lia. Qed.

Lemma Qltb_lt (x y : Q) : Qltb x y = true <-> (x < y)%Q.
Proof.
  unfold Qltb. rewrite negb_true_iff.
  split; intros H.
  - apply Qnot_le_lt. intros Hle. apply Qle_bool_iff in Hle. congruence.
  - destruct (Qle_bool y x) eqn:E; [|reflexivity].
    apply Qle_bool_iff in E. exfalso. apply (Qlt_not_le _ _ H E).
Qed.

Lemma Qltb_irrefl (x : Q) : Qltb x x = false.
Proof.
  destruct (Qltb x x) eqn:E; [|reflexivity].
  apply Qltb_lt in E. exfalso. apply (Qlt_irrefl _ E).
Qed.

Lemma clamp_float_nonneg (q : Q) : (0 <= clamp_float q)%Q.
Proof.
  unfold clamp_float. destruct (Qltb q 0) eqn:E.
  - apply Qle_refl.
  - apply Qnot_lt_le. intros H. apply Qltb_lt in H. congruence.
Qed.

Lemma clamp_float_idem (q : Q) : clamp_float (clamp_float q) = clamp_float q.
Proof.
  unfold clamp_float. destruct (Qltb q 0) eqn:E.
  - now rewrite Qltb_irrefl.
  - now rewrite E.
Qed.

Lemma cellmap_cellmap {A B C : Type} (f : A -> B) (g : B -> C) (a : list (list A)) :
  cellmap g (cellmap f a) = cellmap (fun x => g (f x)) a.
Proof.
  unfold cellmap. rewrite map_map. apply map_ext. intros r. apply map_map.
Qed.

Lemma cellmap_ext {A B : Type} (f g : A -> B) (a : list (list A)) :
  (forall x, f x = g x) -> cellmap f a = cellmap g a.
Proof.
  intros H. unfold cellmap. apply map_ext. intros r. now apply map_ext.
Qed.

Lemma all_cells_cellmap {A B : Type} (P : B -> Prop) (f : A -> B) (a : list (list A)) :
  (forall x, P (f x)) -> all_cells P (cellmap f a).
Proof.
  intros H. unfold all_cells, cellmap.
  apply Forall_forall. intros r Hr.
  apply in_map_iff in Hr as [r0 [<- _]].
  apply Forall_forall. intros y Hy.
  apply in_map_iff in Hy as [x [<- _]]. apply H.
Qed.

Lemma setitem_neg_zero_idem (a : frame) :
  setitem_neg_zero (setitem_neg_zero a) = setitem_neg_zero a.
Proof.
  destruct a; simpl; f_equal; rewrite cellmap_cellmap; apply cellmap_ext.
  - apply clamp_int_idem.
  - apply clamp_float_idem.
Qed.

Lemma setitem_neg_zero_nonnegative (a : frame) : nonnegative (setitem_neg_zero a).
Proof.
  destruct a; simpl; apply all_cells_cellmap.
  - apply clamp_int_nonneg.
  - apply clamp_float_nonneg.
Qed.

Lemma publish_laplace_int (a : frame) :
  exists rows, publish_laplace a = IntFrame (cellmap clamp_int rows).
Proof.
  unfold publish_laplace. destruct a; simpl; eexists; reflexivity.
Qed.

(** ** Rewriting element-wise operations *)

Lemma zip_with_ext {A B C : Type} (f g : A -> B -> C) (xs : list A) (ys : list B) :
  (forall x y, f x y = g x y) -> zip_with f xs ys = zip_with g xs ys.
Proof.
  intros H. revert ys; induction xs as [|x xs IH]; intros [|y ys]; simpl; auto.
  now rewrite H, IH.
Qed.

Lemma zip_with_map {A A' B B' C : Type} (f : A' -> B' -> C) (g : A -> A') (h : B -> B')
  (xs : list A) (ys : list B) :
  zip_with f (map g xs) (map h ys) = zip_with (fun x y => f (g x) (h y)) xs ys.
Proof.
  revert ys; induction xs as [|x xs IH]; intros [|y ys]; simpl; auto.
  now rewrite IH.
Qed.

Lemma zip_with_nested_map {A B B' C D : Type} (f : C -> B' -> D) (g : A -> B -> C)
  (h : B -> B') (xs : list A) (ys : list B) :
  zip_with f (zip_with g xs ys) (map h ys) = zip_with (fun x y => f (g x y) (h y)) xs ys.
Proof.
  revert ys; induction xs as [|x xs IH]; intros [|y ys]; simpl; auto.
  now rewrite IH.
Qed.

Lemma map_zip_with {A B C D : Type} (f : C -> D) (g : A -> B -> C)
  (xs : list A) (ys : list B) :
  map f (zip_with g xs ys) = zip_with (fun x y => f (g x y)) xs ys.
Proof.
  revert ys; induction xs as [|x xs IH]; intros [|y ys]; simpl; auto.
  now rewrite IH.
Qed.

Lemma cellwise_ext {A B C : Type} (f g : A -> B -> C)
  (a : list (list A)) (b : list (list B)) :
  (forall x y, f x y = g x y) -> cellwise f a b = cellwise g a b.
Proof.
  intros H. unfold cellwise. apply zip_with_ext.
  intros r r'. now apply zip_with_ext.
Qed.

Lemma cellwise_cellmap {A A' B B' C : Type} (f : A' -> B' -> C) (g : A -> A') (h : B -> B')
  (a : list (list A)) (b : list (list B)) :
  cellwise f (cellmap g a) (cellmap h b) = cellwise (fun x y => f (g x) (h y)) a b.
Proof.
  unfold cellwise, cellmap. rewrite zip_with_map.
  apply zip_with_ext. intros r r'. apply zip_with_map.
Qed.

Lemma cellwise_nested_cellmap {A B B' C D : Type} (f : C -> B' -> D) (g : A -> B -> C)
  (h : B -> B') (a : list (list A)) (b : list (list B)) :
  cellwise f (cellwise g a b) (cellmap h b) = cellwise (fun x y => f (g x y) (h y)) a b.
Proof.
  unfold cellwise, cellmap. rewrite zip_with_nested_map.
  apply zip_with_ext. intros r r'. apply zip_with_nested_map.
Qed.

Lemma cellmap_cellwise {A B C D : Type} (f : C -> D) (g : A -> B -> C)
  (a : list (list A)) (b : list (list B)) :
  cellmap f (cellwise g a b) = cellwise (fun x y => f (g x y)) a b.
Proof.
  unfold cellwise, cellmap. rewrite map_zip_with.
  apply zip_with_ext. intros r r'. apply map_zip_with.
Qed.

(** ** Sums *)

Lemma series_sum_add_rows (a b : list Z) :
  series_sum Z.add 0%Z (add_rows Z.add a b) =
  (series_sum Z.add 0 a + series_sum Z.add 0 b)%Z.
Proof.
  unfold series_sum.
  revert b; induction a as [|x a IH]; intros [|y b]; simpl; try lia.
  rewrite IH. lia.
Qed.

Lemma sum_sum_total (rows : list (list Z)) :
  sum_sum (IntFrame rows) = IntVal (total rows).
Proof.
  simpl. f_equal. unfold column_sums.
  induction rows as [|r rows IH]; simpl; [reflexivity|].
  rewrite series_sum_add_rows, IH. reflexivity.
Qed.

(** ** The published table *)

Example round_half_even_samples :
  map round_half_even [5 # 2; 7 # 2; -5 # 2; -1 # 2; 3 # 4; -7 # 4; 2 # 1]%Q
  = [2; 4; -2; 0; 1; -2; 2]%Z.
Proof. reflexivity. Qed.

(** The run recorded in the Laplace notebook: the true table, the noise
    that was printed, the table published and a total L1 error of 17. *)
Example laplace_notebook_recorded_run :
  exists r,
    run_laplace
      (IntFrame [[137; 148]; [148; 164]; [99; 91]; [106; 97]; [3; 7]]%Z)
      (FloatFrame [[227727214 # 100000000; -190631261 # 100000000];
                   [-10745796 # 10000000; 314459949 # 100000000];
                   [9501998 # 10000000; 265654731 # 100000000];
                   [140929971 # 100000000; -298973108 # 100000000];
                   [-63442318 # 100000000; 12788332 # 100000000]]%Q) = Ok r /\
    noisytabpost_value r =
      IntFrame [[139; 146]; [147; 167]; [100; 94]; [107; 94]; [2; 7]]%Z /\
    errortab_value r = IntFrame [[2; 2]; [1; 3]; [1; 3]; [1; 3]; [1; 0]]%Z /\
    errorsum_value r = IntVal 17 /\
    truesum_value r = IntVal 1000.
Proof.
  eexists. split; [vm_compute; reflexivity|].
  repeat split.
Qed.

(** The run recorded in the Geometric notebook: the published table differs
    from the true one in three cells, the relative error of the cell whose
    true count is 0 is printed as [inf], the total L1 error is 3 and the
    relative L1 error 3 percent. *)
Example geometric_notebook_recorded_run :
  exists r,
    run_geometric
      (IntFrame [[18; 19]; [13; 16]; [10; 10]; [8; 5]; [0; 1]])
      (IntFrame [[-1; 0]; [0; 0]; [0; 0]; [0; -1]; [1; 0]]) = Ok r /\
    noisytabpost_value r = IntFrame [[17; 19]; [13; 16]; [10; 10]; [8; 4]; [1; 1]] /\
    errortab_value r = IntFrame [[1; 0]; [0; 0]; [0; 0]; [0; 1]; [1; 0]] /\
    pcterrortab_value r =
      [[Finite (1 / 18); Finite (0 / 19)];
       [Finite (0 / 13); Finite (0 / 16)];
       [Finite (0 / 10); Finite (0 / 10)];
       [Finite (0 / 8); Finite (1 / 5)];
       [PosInf; Finite (0 / 1)]]%Q /\
    errorsum_value r = IntVal 3 /\
    errorrel_value r = Finite (300 / 100).
Proof.
  eexists. split; [vm_compute; reflexivity|].
  repeat split.
Qed.

(** C1. With the true table [[18,19],[13,16],[10,10],[8,5],[0,1]] and the
    noise [[0,-1],[-3,1],[-1,-2],[3,-3],[0,0]], the cell that adds the noise
    and sets negative cells to zero (no rounding) publishes
    [[18,18],[10,17],[9,8],[11,2],[0,1]], and the total L1 error, the sum
    over all cells of |published - true|, is 14. *)
Theorem scenario1_published_table_and_error :
  exists r,
    run_geometric scenario1_truetab scenario1_noise = Ok r /\
    noisytabpost_value r = scenario1_published /\
    errortab_value r = IntFrame [[0; 1]; [3; 1]; [1; 2]; [3; 3]; [0; 0]]%Z /\
    errorsum_value r = IntVal 14.
Proof.
  eexists. split; [vm_compute; reflexivity|].
  repeat split.
Qed.

(** In the Laplace notebook the published table is a new object: the name
    [noisytab] still holds the raw noisy table when the cells have run,
    and [truetab] is unchanged. *)
Lemma laplace_cell_keeps_raw_noisy_table (t n : frame) :
  shape t = shape n ->
  exists r, run_laplace t n = Ok r /\
            noisytab_value r = raw_noisy t n /\
            truetab_value r = t.
Proof.
  intros H. eexists. split; [apply (run_laplace_ok _ _ H)|].
  split; reflexivity.
Qed.

(** In the Geometric notebook [noisytab] and [noisytabpost] name one
    object: in the end both hold the published table. *)
Lemma geometric_cell_aliases_noisytab (t n : frame) :
  shape t = shape n ->
  exists r, run_geometric t n = Ok r /\
            noisytab_value r = publish_geometric (raw_noisy t n) /\
            noisytabpost_value r = noisytab_value r /\
            truetab_value r = t.
Proof.
  intros H. eexists. split; [apply (run_geometric_ok _ _ H)|].
  repeat split.
Qed.

(** C5. The raw noisy table and the published table are claimed to be
    distinct values, the raw one left unchanged by the post-processing.
    In the Geometric notebook this fails: for the true row [0, 1] and the
    noise [-1, 0] the raw noisy table is [-1, 1], and once the cell has run
    the name [noisytab] holds [0, 1], the published table.  The true table
    is left as it was. *)
Theorem geometric_cell_overwrites_raw_noisy_table :
  exists r,
    run_geometric unicorn_truetab unicorn_noise = Ok r /\
    add unicorn_truetab unicorn_noise = Ok (IntFrame [[-1; 1]]%Z) /\
    noisytab_value r = IntFrame [[0; 1]]%Z /\
    noisytab_value r <> IntFrame [[-1; 1]]%Z /\
    noisytabpost_value r = noisytab_value r /\
    truetab_value r = unicorn_truetab.
Proof.
  eexists. split; [vm_compute; reflexivity|].
  repeat split. cbn. discriminate.
Qed.

Lemma truetab_nonnegative (myrecs : list Population.person) :
  nonnegative (Population.truetab myrecs).
Proof.
  unfold Population.truetab. cbn [nonnegative].
  apply Forall_forall. intros r Hr.
  apply in_map_iff in Hr as [occ [<- _]].
  apply Forall_forall. intros z Hz.
  apply in_map_iff in Hz as [sex [<- _]].
  unfold Population.count_cell. lia.
Qed.

Lemma run_published_cases (t n : frame) :
  (run_geometric t n = Raise ValueError /\ run_laplace t n = Raise ValueError) \/
  (exists g l, run_geometric t n = Ok g /\ run_laplace t n = Ok l /\
               noisytabpost_value g = publish_geometric (raw_noisy t n) /\
               noisytabpost_value l = publish_laplace (raw_noisy t n)).
Proof.
  destruct (list_eq_dec Nat.eq_dec (shape t) (shape n)) as [H|H].
  - right. do 2 eexists.
    split; [apply (run_geometric_ok _ _ H)|].
    split; [apply (run_laplace_ok _ _ H)|].
    split; reflexivity.
  - left. now apply run_other_shape.
Qed.

(** C6. The true table built from the records has every cell >= 0; for
    every noisy table, whatever the sign of its cells, the table published
    after negative cells are set to zero has every cell >= 0, and with the
    Laplace post-processing (round, convert, clamp) it is of integer dtype.
    The same holds of the table a run of either notebook publishes. *)
Theorem published_table_nonnegative :
  (forall myrecs, nonnegative (Population.truetab myrecs)) /\
  (forall noisy, nonnegative (publish_geometric noisy)) /\
  (forall noisy, nonnegative (publish_laplace noisy) /\
                 integer_valued (publish_laplace noisy)) /\
  (forall truetab noise,
      match run_geometric truetab noise with
      | Ok r => nonnegative (noisytabpost_value r)
      | Raise _ => True
      end /\
      match run_laplace truetab noise with
      | Ok r => nonnegative (noisytabpost_value r) /\
                integer_valued (noisytabpost_value r)
      | Raise _ => True
      end).
Proof.
  assert (HL : forall noisy, nonnegative (publish_laplace noisy) /\
                             integer_valued (publish_laplace noisy)).
  { intros noisy. split.
    - apply setitem_neg_zero_nonnegative.
    - destruct (publish_laplace_int noisy) as [rows ->]. exact I. }
  split; [apply truetab_nonnegative|].
  split; [intros noisy; apply setitem_neg_zero_nonnegative|].
  split; [exact HL|].
  intros t n.
  destruct (run_published_cases t n) as [[-> ->]|[g [l [-> [-> [Hg Hl]]]]]].
  - split; exact I.
  - rewrite Hg, Hl. split; [apply setitem_neg_zero_nonnegative | apply HL].
Qed.

(** C7. For every noisy table, applying the post-processing policy twice
    gives exactly the table obtained by applying it once, both for the
    policy of the Geometric notebook (clamp) and for that of the Laplace
    notebook (round to nearest integer, then clamp). *)
Theorem post_processing_idempotent :
  forall noisy,
    publish_geometric (publish_geometric noisy) = publish_geometric noisy /\
    publish_laplace (publish_laplace noisy) = publish_laplace noisy.
Proof.
  intros noisy. split.
  - apply setitem_neg_zero_idem.
  - destruct (publish_laplace_int noisy) as [rows ->].
    unfold publish_laplace. cbn [round astype_int].
    apply (setitem_neg_zero_idem (IntFrame rows)).
Qed.

(** ** The relative error *)

Lemma Qeq_bool_inject_Z_zero (y : Z) : Qeq_bool (inject_Z y) 0 = (y =? 0).
Proof. destruct y; reflexivity. Qed.

Lemma Qltb_inject_Z_nonneg (a : Z) : 0 <= a -> Qltb (inject_Z a) 0 = false.
Proof.
  intros H. destruct (Qltb (inject_Z a) 0) eqn:E; [|reflexivity].
  apply Qltb_lt in E. unfold Qlt in E. simpl in E. lia.
Qed.

(** The division of a non-negative integer error by an integer count
    agrees with the specification's relative error, except that zero over
    zero is [nan]. *)
Lemma truediv_relative_error (a y : Z) :
  0 <= a ->
  truediv (inject_Z a) (inject_Z y) =
  if (y =? 0) && (a =? 0) then NaN else spec_relative_error a y.
Proof.
  intros Ha. unfold truediv, spec_relative_error.
  rewrite !Qeq_bool_inject_Z_zero, (Qltb_inject_Z_nonneg a Ha).
  destruct (y =? 0), (a =? 0); reflexivity.
Qed.

(** C4, as the code has it. For every pair of same-shaped published and
    true tables the statements that measure the error complete without an
    exception and the relative error of a cell is absoluteError/true,
    [+inf] when the true cell is 0 and the absolute error is positive;
    when both are 0 it is [nan], the result of the division, and not 0. *)
Theorem relative_error_cells (p t : list (list Z)) :
  row_lengths p = row_lengths t ->
  exists nm h,
    measure_error 0%nat 1%nat 1%nat [IntFrame t; IntFrame p] = Ok (nm, h) /\
    pcterrortab nm =
    cellwise (fun x y =>
                let a := Z.abs (x - y) in
                if (y =? 0) && (a =? 0) then NaN else spec_relative_error a y) p t.
Proof.
  intros H.
  unfold measure_error, seq, load, new, lift, ret.
  cbn [nth_error List.length app].
  rewrite (sub_published (IntFrame p) (IntFrame t) H).
  cbn [nth_error List.length app].
  rewrite div_same_shape
    by (rewrite shape_abs, shape_elementwise; assumption).
  do 2 eexists. split; [reflexivity|].
  cbn [pcterrortab values abs elementwise].
  rewrite cellmap_cellmap, cellmap_cellwise, cellwise_nested_cellmap.
  apply cellwise_ext. intros x y.
  apply truediv_relative_error. lia.
Qed.

(** Scenario 4: a true cell 0 published as 1 has relative error [+inf];
    a cell published exactly has relative error 0. *)
Lemma relative_error_cells_witness :
  exists nm h,
    measure_error 0%nat 1%nat 1%nat [IntFrame [[0; 1]]; IntFrame [[1; 1]]] = Ok (nm, h) /\
    pcterrortab nm = [[PosInf; Finite 0]].
Proof.
  destruct (relative_error_cells [[1; 1]] [[0; 1]] eq_refl) as [nm [h [H1 H2]]].
  exists nm, h. split; [exact H1|].
  rewrite H2. reflexivity.
Defined.

(** C4, as stated, fails when the true cell and the absolute error are
    both 0: the relative error is [nan], not 0. *)
Lemma relative_error_zero_over_zero :
  exists nm h,
    measure_error 0%nat 1%nat 1%nat [IntFrame [[0]]; IntFrame [[0]]] = Ok (nm, h) /\
    pcterrortab nm = [[NaN]] /\
    pcterrortab nm <> [[spec_relative_error (Z.abs (0 - 0)) 0]].
Proof.
  do 2 eexists. split; [vm_compute; reflexivity|].
  split; [reflexivity|]. cbn. discriminate.
Qed.

(** ** Calibration *)

Section CalibrationProperties.

Local Open Scope R_scope.

Lemma scale_nonzero (s e : R) : e <> 0 -> Calibrator.scale s e = Ok (s / e).
Proof.
  intros H. unfold Calibrator.scale.
  destruct (Req_dec_T e 0); [contradiction | reflexivity].
Qed.

Lemma scale_zero (s e : R) : e = 0 -> Calibrator.scale s e = Raise ZeroDivisionError.
Proof.
  intros H. unfold Calibrator.scale.
  destruct (Req_dec_T e 0); [reflexivity | contradiction].
Qed.

Lemma probability_nonzero (s e : R) :
  s <> 0 -> Calibrator.probability s e = Ok (1 - exp (- (e / s))).
Proof.
  intros H. unfold Calibrator.probability.
  destruct (Req_dec_T s 0); [contradiction|].
  do 3 f_equal. unfold Rdiv. ring.
Qed.

Lemma probability_zero (s e : R) :
  s = 0 -> Calibrator.probability s e = Raise ZeroDivisionError.
Proof.
  intros H. unfold Calibrator.probability.
  destruct (Req_dec_T s 0); [reflexivity | contradiction].
Qed.

(** C3, as the code has it. The calibration checks nothing and never
    raises [InvalidParameterError]: it fails only on a zero divisor
    (epsilon for the scale, sensitivity for the probability), with
    Python's [ZeroDivisionError]; for every other input, negative
    sensitivity or epsilon included, it returns sensitivity/epsilon and
    1 - exp(-epsilon/sensitivity). *)
Theorem calibration_unchecked (sensitivity epsilon : R) :
  (epsilon = 0 -> Calibrator.scale sensitivity epsilon = Raise ZeroDivisionError) /\
  (epsilon <> 0 -> Calibrator.scale sensitivity epsilon = Ok (sensitivity / epsilon)) /\
  (sensitivity = 0 ->
   Calibrator.probability sensitivity epsilon = Raise ZeroDivisionError) /\
  (sensitivity <> 0 ->
   Calibrator.probability sensitivity epsilon = Ok (1 - exp (- (epsilon / sensitivity)))) /\
  Calibrator.scale sensitivity epsilon <> Raise InvalidParameterError /\
  Calibrator.probability sensitivity epsilon <> Raise InvalidParameterError.
Proof.
  split; [apply scale_zero|].
  split; [apply scale_nonzero|].
  split; [apply probability_zero|].
  split; [apply probability_nonzero|].
  unfold Calibrator.scale, Calibrator.probability.
  split.
  - destruct (Req_dec_T epsilon 0); discriminate.
  - destruct (Req_dec_T sensitivity 0); discriminate.
Qed.

(** Zero and negative parameters. *)
Lemma calibration_unchecked_witness :
  Calibrator.scale 1 0 = Raise ZeroDivisionError /\
  Calibrator.scale 1 (-1) = Ok (1 / -1) /\
  Calibrator.probability 0 1 = Raise ZeroDivisionError /\
  Calibrator.probability (-1) 1 = Ok (1 - exp (- (1 / -1))).
Proof.
  split; [apply (proj1 (calibration_unchecked 1 0)); reflexivity|].
  split; [apply (proj1 (proj2 (calibration_unchecked 1 (-1)))); lra|].
  split; [apply (proj1 (proj2 (proj2 (calibration_unchecked 0 1)))); reflexivity|].
  apply (proj1 (proj2 (proj2 (proj2 (calibration_unchecked (-1) 1))))); lra.
Defined.

(** C3, as stated, fails: epsilon = -1 is not rejected, the scale -1 and
    the probability 1 - e are returned. *)
Lemma negative_epsilon_is_not_rejected :
  -1 <= 0 /\
  Calibrator.scale 1 (-1) = Ok (-1) /\
  Calibrator.scale 1 (-1) <> Raise InvalidParameterError /\
  Calibrator.probability 1 (-1) = Ok (1 - exp 1) /\
  Calibrator.probability 1 (-1) <> Raise InvalidParameterError.
Proof.
  split; [lra|].
  rewrite (scale_nonzero 1 (-1)) by lra.
  rewrite (probability_nonzero 1 (-1)) by lra.
  split; [f_equal; field|].
  split; [discriminate|].
  split; [|discriminate].
  do 3 f_equal. field.
Qed.

End CalibrationProperties.

(** ** Calibration in binary64 *)

Section BinaryCalibration.

Import Floats.

Import Binary64.

Local Open Scope Z_scope.

Lemma shr_1_nonneg (r : shr_record) : 0 <= shr_m r -> 0 <= shr_m (shr_1 r).
Proof.
  destruct r as [m b s]. simpl. intros H.
  destruct m as [|p|p]; [simpl; lia | destruct p; simpl; lia | lia].
Qed.

(** The number of binary digits of a significand. *)
Lemma digits2_pos_bounds (p : positive) :
  2 ^ (Zpos (digits2_pos p) - 1) <= Zpos p < 2 ^ Zpos (digits2_pos p).
Proof.
  induction p as [p IH|p IH|]; cbn [digits2_pos]; [| |simpl; lia].
  - rewrite Pos2Z.inj_succ.
    replace (Z.succ (Zpos (digits2_pos p)) - 1) with (Z.succ (Zpos (digits2_pos p) - 1)) by lia.
    rewrite !Z.pow_succ_r by lia. lia.
  - rewrite Pos2Z.inj_succ.
    replace (Z.succ (Zpos (digits2_pos p)) - 1) with (Z.succ (Zpos (digits2_pos p) - 1)) by lia.
    rewrite !Z.pow_succ_r by lia. lia.
Qed.

Lemma digits2_pos_unique (p : positive) (d : Z) :
  2 ^ (d - 1) <= Zpos p < 2 ^ d -> Zpos (digits2_pos p) = d.
Proof.
  intros [H1 H2]. pose proof (digits2_pos_bounds p) as [H3 H4].
  assert (Hd : 0 < d).
  { destruct (Z_lt_le_dec 0 d) as [|Hd]; [assumption|].
    destruct (Z.eq_dec d 0) as [->|]; [simpl in H2; lia|].
    rewrite Z.pow_neg_r in H2 by lia. lia. }
  assert (d - 1 < Zpos (digits2_pos p)).
  { apply (Z.pow_lt_mono_r_iff 2); lia. }
  assert (Zpos (digits2_pos p) - 1 < d).
  { apply (Z.pow_lt_mono_r_iff 2); lia. }
  lia.
Qed.

Lemma iter_xO_value (p s : positive) : Zpos (Pos.iter xO p s) = Zpos p * 2 ^ Zpos s.
Proof.
  induction s as [|s IH] using Pos.peano_ind.
  - simpl. lia.
  - rewrite Pos.iter_succ, Pos2Z.inj_succ, Z.pow_succ_r by lia.
    rewrite (Pos2Z.inj_xO (Pos.iter xO p s)), IH. lia.
Qed.

Lemma digits2_pos_iter_xO (p s : positive) :
  Zpos (digits2_pos (Pos.iter xO p s)) = Zpos (digits2_pos p) + Zpos s.
Proof.
  induction s as [|s IH] using Pos.peano_ind.
  - simpl. lia.
  - rewrite Pos.iter_succ. cbn [digits2_pos]. rewrite Pos2Z.inj_succ, IH. lia.
Qed.

Lemma shr_m_shr_1 (r : shr_record) : 0 <= shr_m r -> shr_m (shr_1 r) = shr_m r / 2.
Proof.
  destruct r as [m b s]. cbn [shr_m]. intros H.
  destruct m as [|p|p]; [reflexivity | | lia].
  destruct p as [p|p|]; cbn [shr_1 shr_m].
  - rewrite (Pos2Z.inj_xI p). apply Z.div_unique with (r := 1); lia.
  - rewrite (Pos2Z.inj_xO p). apply Z.div_unique with (r := 0); lia.
  - reflexivity.
Qed.

(** Shifting a significand right by [n] digits divides it by 2^n. *)
Lemma shr_m_iter_pos (n : positive) (r : shr_record) :
  0 <= shr_m r ->
  shr_m (iter_pos shr_1 n r) = shr_m r / 2 ^ Zpos n /\ 0 <= shr_m (iter_pos shr_1 n r).
Proof.
  revert r. induction n as [n IH|n IH|]; intros r Hr; cbn [iter_pos].
  - pose proof (shr_1_nonneg r Hr) as H1.
    destruct (IH _ H1) as [E2 H2]. destruct (IH _ H2) as [E3 H3].
    split; [|exact H3].
    rewrite E3, E2, shr_m_shr_1 by exact Hr.
    rewrite !Z.div_div by lia. f_equal.
    rewrite (Pos2Z.inj_xI n), Z.pow_add_r, Z.pow_mul_r by lia.
    change (2 ^ 2) with 4. change (2 ^ 1) with 2.
    replace (4 ^ Zpos n) with (2 ^ Zpos n * 2 ^ Zpos n); [lia|].
    rewrite <- Z.pow_mul_l. reflexivity.
  - destruct (IH _ Hr) as [E2 H2]. destruct (IH _ H2) as [E3 H3].
    split; [|exact H3].
    rewrite E3, E2. rewrite Z.div_div by lia. f_equal.
    rewrite (Pos2Z.inj_xO n), Z.pow_mul_r by lia.
    change (2 ^ 2) with 4.
    rewrite <- Z.pow_mul_l. reflexivity.
  - split; [|now apply shr_1_nonneg].
    rewrite shr_m_shr_1 by exact Hr. reflexivity.
Qed.
Lemma iter_pos_invariant {A : Type} (P : A -> Prop) (f : A -> A) :
  (forall x, P x -> P (f x)) -> forall n x, P x -> P (iter_pos f n x).
Proof.
  intros Hf n. induction n as [n IH|n IH|]; intros x Hx; simpl; auto.
Qed.

Lemma shr_nonneg (r : shr_record) (e n : Z) :
  0 <= shr_m r -> 0 <= shr_m (fst (shr r e n)).
Proof.
  intros H. destruct n as [|p|p]; simpl; auto.
  apply (iter_pos_invariant (fun r => 0 <= shr_m r)); auto using shr_1_nonneg.
Qed.

Lemma shr_m_record_of_loc (m : Z) (l : location) : shr_m (shr_record_of_loc m l) = m.
Proof. destruct l as [|[| |]]; reflexivity. Qed.

Lemma shr_fexp_nonneg (m e : Z) (l : location) :
  0 <= m -> 0 <= shr_m (fst (shr_fexp prec emax m e l)).
Proof.
  intros H. unfold shr_fexp. apply shr_nonneg. now rewrite shr_m_record_of_loc.
Qed.

Lemma round_nearest_even_nonneg (m : Z) (l : location) :
  0 <= m -> 0 <= round_nearest_even m l.
Proof.
  intros H. destruct l as [|[| |]]; simpl; try lia.
  destruct (Z.even m); lia.
Qed.

(** Rounding keeps the sign: a significand >= 0 is rounded to a zero, a
    finite number or an infinity of the sign given. *)
Lemma binary_round_aux_sign (s : bool) (m e : Z) (l : location) :
  0 <= m -> has_sign s (binary_round_aux prec emax s m e l).
Proof.
  intros H. unfold binary_round_aux.
  pose proof (shr_fexp_nonneg m e l H) as H1.
  destruct (shr_fexp prec emax m e l) as [r1 e1]. cbn [fst] in H1.
  pose proof (shr_fexp_nonneg _ e1 loc_Exact
                (round_nearest_even_nonneg _ (loc_of_shr_record r1) H1)) as H2.
  destruct (shr_fexp prec emax (round_nearest_even (shr_m r1) (loc_of_shr_record r1)) e1 loc_Exact)
    as [r2 e2]. cbn [fst] in H2.
  destruct (shr_m r2) as [|p|p]; [reflexivity | | lia].
  destruct (e2 <=? emax - prec); reflexivity.
Qed.

Lemma SFdiv_sign (sx sy : bool) (mx my : positive) (ex ey : Z) :
  has_sign (xorb sx sy)
    (SFdiv prec emax (S754_finite sx mx ex) (S754_finite sy my ey)).
Proof.
  unfold SFdiv, SFdiv_core_binary.
  set (m' := match _ - _ - _ with Z0 => Zpos mx | Zpos _ => _ | Zneg _ => 0 end).
  assert (Hm : 0 <= m').
  { unfold m'. destruct (_ - _ - _); try lia. apply Z.shiftl_nonneg. lia. }
  pose proof (Z_div_mod m' (Zpos my) eq_refl) as Hd.
  destruct (Z.div_eucl m' (Zpos my)) as [q r].
  apply binary_round_aux_sign. nia.
Qed.

Lemma fexp_eq (e : Z) : fexp prec emax e = Z.max (e - 53) (-1074).
Proof. reflexivity. Qed.

Lemma shr_fexp_canonical (p : positive) (e : Z) :
  fexp prec emax (Zpos (digits2_pos p) + e) = e ->
  shr_fexp prec emax (Zpos p) e loc_Exact =
  ({| shr_m := Zpos p; shr_r := false; shr_s := false |}, e).
Proof.
  intros H. unfold shr_fexp. cbn [Zdigits2 shr_record_of_loc].
  rewrite H, Z.sub_diag. reflexivity.
Qed.

Lemma binary_round_aux_canonical (s : bool) (p : positive) (e : Z) :
  fexp prec emax (Zpos (digits2_pos p) + e) = e -> e <= 971 ->
  binary_round_aux prec emax s (Zpos p) e loc_Exact = S754_finite s p e.
Proof.
  intros H He. unfold binary_round_aux. rewrite (shr_fexp_canonical p e H).
  cbn [shr_m loc_of_shr_record round_nearest_even].
  rewrite (shr_fexp_canonical p e H). cbn [shr_m].
  change (emax - prec) with 971.
  destruct (Z.leb_spec e 971); [reflexivity | lia].
Qed.

Lemma binary_round_sign (s : bool) (D : positive) (e : Z) :
  has_sign s (binary_round prec emax s D e).
Proof.
  unfold binary_round. destruct (shl_align D e _) as [mz ez].
  apply binary_round_aux_sign. lia.
Qed.

Lemma SFleb_below_exponent (p : positive) (f : Z) :
  f < -52 -> SFleb (S754_finite false p f) SF1 = true.
Proof.
  intros H. unfold SFleb, SF1, SFcompare.
  now rewrite (proj2 (Z.compare_lt_iff f (-52)) H).
Qed.

Lemma round_nearest_even_bounds (m : Z) (l : location) :
  m <= round_nearest_even m l <= m + 1.
Proof.
  destruct l as [|[| |]]; cbn [round_nearest_even]; try lia.
  destruct (Z.even m); lia.
Qed.

(** A number below 1 is rounded to a float <= 1. *)
Lemma binary_round_below_one (D : positive) (e : Z) :
  -1074 <= e -> Zpos D < 2 ^ (- e) ->
  SFleb (binary_round prec emax false D e) SF1 = true.
Proof.
  intros He HD.
  pose proof (digits2_pos_bounds D) as [Hlo Hhi].
  unfold binary_round.
  set (d := Zpos (digits2_pos D)) in *.
  assert (Hd : 1 <= d) by (unfold d; lia).
  assert (He0 : 0 <= - e).
  { destruct (Z_lt_le_dec (- e) 0) as [Hn|]; [|assumption].
    rewrite (Z.pow_neg_r 2 _ Hn) in HD. lia. }
  assert (Hde : d + e <= 0).
  { assert (d - 1 < - e) by (apply (Z.pow_lt_mono_r_iff 2); lia). lia. }
  rewrite fexp_eq.
  destruct (Z_le_gt_dec d 53) as [H53|H53].
  - set (f := Z.max (d + e - 53) (-1074)).
    assert (Hf : f <= e) by lia.
    assert (Hf53 : f <= -53) by lia.
    assert (Hs : exists mz, shl_align D e f = (mz, f) /\ Zpos (digits2_pos mz) + f = d + e).
    { unfold shl_align. destruct (f - e) as [|s|s] eqn:E; [| lia |].
      - exists D. replace f with e by lia. split; [reflexivity|]. reflexivity.
      - exists (Pos.iter xO D s). split; [reflexivity|].
        rewrite digits2_pos_iter_xO. fold d. lia. }
    destruct Hs as [mz [-> Hmz]].
    rewrite binary_round_aux_canonical; [| rewrite Hmz, fexp_eq; reflexivity | lia].
    apply SFleb_below_exponent. lia.
  - rewrite Z.max_l by lia.
    set (f := d + e - 53).
    assert (Hf53 : f <= -53) by (unfold f; lia).
    assert (Hf1073 : -1073 <= f) by (unfold f; lia).
    assert (Hs : shl_align D e f = (D, e)).
    { unfold shl_align. destruct (f - e) eqn:E; [reflexivity | reflexivity | lia]. }
    rewrite Hs.
    destruct (d - 53) as [|n|n] eqn:En; try lia.
    unfold binary_round_aux.
    assert (Hs1 : shr_fexp prec emax (Zpos D) e loc_Exact =
                  (iter_pos shr_1 n {| shr_m := Zpos D; shr_r := false; shr_s := false |}, f)).
    { unfold shr_fexp. cbn [Zdigits2 shr_record_of_loc]. fold d.
      rewrite fexp_eq, Z.max_l by lia.
      replace (d + e - 53 - e) with (Zpos n) by lia.
      unfold shr. f_equal. unfold f. lia. }
    rewrite Hs1.
    set (r1 := iter_pos shr_1 n _).
    destruct (shr_m_iter_pos n {| shr_m := Zpos D; shr_r := false; shr_s := false |})
      as [Em _]; [cbn; lia|].
    fold r1 in Em. cbn [shr_m] in Em.
    assert (Hpow : 0 < 2 ^ Zpos n) by (apply Z.pow_pos_nonneg; lia).
    assert (Hm1 : 2 ^ 52 <= shr_m r1).
    { rewrite Em. apply Z.div_le_lower_bound; [exact Hpow|].
      rewrite <- Z.pow_add_r by lia.
      replace (Zpos n + 52) with (d - 1) by lia. exact Hlo. }
    assert (Hm2 : shr_m r1 < 2 ^ 53).
    { rewrite Em. apply Z.div_lt_upper_bound; [exact Hpow|].
      rewrite <- Z.pow_add_r by lia.
      replace (Zpos n + 53) with d by lia. exact Hhi. }
    pose proof (round_nearest_even_bounds (shr_m r1) (loc_of_shr_record r1)) as Hr.
    set (m2 := round_nearest_even (shr_m r1) (loc_of_shr_record r1)) in *.
    change (2 ^ 52) with 4503599627370496 in Hm1.
    change (2 ^ 53) with 9007199254740992 in Hm2.
    destruct (Z_lt_le_dec m2 9007199254740992) as [Hlt|Hge].
    + destruct m2 as [|p|p]; try lia.
      assert (Hp : Zpos (digits2_pos p) = 53).
      { apply digits2_pos_unique.
        change (2 ^ (53 - 1)) with 4503599627370496.
        change (2 ^ 53) with 9007199254740992. lia. }
      rewrite (shr_fexp_canonical p f)
        by (rewrite Hp, fexp_eq; lia).
      cbn [shr_m]. change (emax - prec) with 971.
      destruct (Z.leb_spec f 971); [|lia].
      apply SFleb_below_exponent. lia.
    + assert (E2 : m2 = 9007199254740992) by lia.
      rewrite E2.
      assert (Hs2 : shr_fexp prec emax 9007199254740992 f loc_Exact =
                    ({| shr_m := 4503599627370496; shr_r := false; shr_s := false |}, f + 1)).
      { unfold shr_fexp.
        change (Zdigits2 9007199254740992) with 54.
        rewrite fexp_eq, Z.max_l by lia.
        replace (54 + f - 53 - f) with 1 by lia. reflexivity. }
      rewrite Hs2. cbn [shr_m]. change (emax - prec) with 971.
      destruct (Z.leb_spec (f + 1) 971); [|lia].
      unfold SFleb, SF1, SFcompare.
      destruct (Z.compare_spec (f + 1) (-52)); [reflexivity | reflexivity | lia].
Qed.

Lemma SFleb_zero_nonneg (x : spec_float) :
  has_sign false x -> SFleb (S754_zero false) x = true.
Proof. destruct x as [s|s| |s m e]; simpl; intros H; try subst; try reflexivity; contradiction. Qed.

Lemma SFleb_nonpos_zero (x : spec_float) :
  has_sign true x -> SFleb x (S754_zero false) = true.
Proof. destruct x as [s|s| |s m e]; simpl; intros H; try subst; try reflexivity; contradiction. Qed.

(** For a float 0 < y <= 1 the difference 1 - y is a float in [0, 1]. *)
Lemma one_minus_in_unit (my : positive) (ey : Z) :
  valid_binary (S754_finite false my ey) = true ->
  SFleb (S754_finite false my ey) SF1 = true ->
  SFleb (S754_zero false) (SFsub prec emax SF1 (S754_finite false my ey)) = true /\
  SFleb (SFsub prec emax SF1 (S754_finite false my ey)) SF1 = true.
Proof.
  intros Hv Hle.
  cbn [SpecFloat.valid_binary] in Hv. unfold bounded, canonical_mantissa in Hv.
  apply andb_true_iff in Hv as [Hc _]. apply Z.eqb_eq in Hc.
  rewrite fexp_eq in Hc.
  pose proof (digits2_pos_bounds my) as [Hlo Hhi].
  set (dy := Zpos (digits2_pos my)) in *.
  assert (Hdy : 1 <= dy <= 53) by (unfold dy; lia).
  assert (Hey : -1074 <= ey) by lia.
  assert (Hmy : Zpos my < 2 ^ 53).
  { apply Z.lt_le_trans with (1 := Hhi). apply Z.pow_le_mono_r; lia. }
  unfold SFleb, SF1, SFcompare in Hle.
  destruct (Z.compare_spec ey (-52)) as [E|E|E]; [| |discriminate].
  - assert (Hd53 : dy = 53) by lia.
    rewrite Hd53 in Hlo. change (2 ^ (53 - 1)) with 4503599627370496 in Hlo.
    assert (Hcmp : (my <= 4503599627370496)%positive).
    { unfold Pos.le, Pos.compare. destruct (Pos.compare_cont Eq my 4503599627370496);
        discriminate. }
    assert (Emy : my = 4503599627370496%positive).
    { apply Pos2Z.inj. apply Z.le_antisymm; [apply Pos2Z.pos_le_pos; exact Hcmp | exact Hlo]. }
    subst my ey. split; reflexivity.
  - unfold SFsub, SF1. rewrite Z.min_r by lia. cbn [cond_Zopp].
    assert (Hs1 : exists s, shl_align 4503599627370496%positive (-52) ey =
                            (Pos.iter xO 4503599627370496%positive s, ey) /\
                            Zpos s = -52 - ey).
    { unfold shl_align. destruct (ey - -52) as [|s|s] eqn:Es; try lia.
      exists s. split; [reflexivity | lia]. }
    destruct Hs1 as [s [-> Hs]].
    assert (Hs2 : shl_align my ey ey = (my, ey)).
    { unfold shl_align. now rewrite Z.sub_diag. }
    rewrite Hs2. cbn [fst].
    rewrite iter_xO_value.
    change 4503599627370496 with (2 ^ 52).
    rewrite <- Z.pow_add_r by lia.
    replace (52 + Zpos s) with (- ey) by lia.
    assert (Hpow : 2 ^ 53 <= 2 ^ (- ey)) by (apply Z.pow_le_mono_r; lia).
    destruct (2 ^ (- ey) - Zpos my) as [|D|D] eqn:ED; try lia.
    cbn [binary_normalize]. split.
    + apply SFleb_zero_nonneg, binary_round_sign.
    + apply binary_round_below_one; lia.
Qed.

Local Open Scope float_scope.

Lemma positive_finite (x : float) :
  is_finite x = true -> (0 <? x) = true ->
  exists m e, Prim2SF x = S754_finite false m e.
Proof.
  unfold is_finite, is_nan, is_infinity.
  rewrite !eqb_spec, ltb_spec, abs_spec.
  change (Prim2SF 0) with (S754_zero false).
  change (Prim2SF infinity) with (S754_infinity false).
  destruct (Prim2SF x) as [s|s| |s m e]; try (cbn; discriminate).
  - destruct s; cbn; discriminate.
  - destruct s; [cbn; discriminate|]. intros _ _. now exists m, e.
Qed.

Lemma eqb_zero_finite (x : float) (s : bool) (m : positive) (e : Z) :
  Prim2SF x = S754_finite s m e -> (x =? 0) = false.
Proof.
  intros H. rewrite eqb_spec, H. change (Prim2SF 0) with (S754_zero false).
  destruct s; reflexivity.
Qed.

Lemma div_sign (x y : float) (sx sy : bool) (mx my : positive) (ex ey : Z) :
  Prim2SF x = S754_finite sx mx ex -> Prim2SF y = S754_finite sy my ey ->
  has_sign (xorb sx sy) (Prim2SF (x / y)).
Proof.
  intros Hx Hy. rewrite div_spec, Hx, Hy. apply SFdiv_sign.
Qed.

Lemma one_minus_unit (y : float) :
  (0 <=? y) = true -> (y <=? 1) = true ->
  (0 <=? 1 - y) = true /\ (1 - y <=? 1) = true.
Proof.
  rewrite !leb_spec, sub_spec.
  change (Prim2SF 0) with (S754_zero false).
  change (Prim2SF 1) with SF1.
  pose proof (Prim2SF_valid y) as Hv.
  destruct (Prim2SF y) as [s|s| |s m e].
  - intros _ _. destruct s; split; reflexivity.
  - destruct s; cbn; discriminate.
  - cbn; discriminate.
  - destruct s; [cbn; discriminate|].
    intros _ Hle. now apply one_minus_in_unit.
Qed.

(** C2, as the code has it.  For finite floats sensitivity > 0 and
    epsilon > 0 the calibration raises nothing.  The scale is the binary64
    quotient sensitivity/epsilon; it is >= 0, never negative and never
    [nan], but it is 0.0 when the quotient underflows and [inf] when it
    overflows.  The probability is the binary64 value of
    1 - np.exp(-epsilon/sensitivity); it lies in [0, 1] as soon as [np.exp]
    returns a value in [0, 1] for every argument <= 0. *)
Theorem calibration_correct (np_exp : float -> float) (sensitivity epsilon : float) :
  (forall x, (x <=? 0) = true -> (0 <=? np_exp x) = true /\ (np_exp x <=? 1) = true) ->
  is_finite sensitivity = true -> is_finite epsilon = true ->
  (0 <? sensitivity) = true -> (0 <? epsilon) = true ->
  scale sensitivity epsilon = Ok (sensitivity / epsilon) /\
  (0 <=? sensitivity / epsilon) = true /\
  probability np_exp sensitivity epsilon = Ok (1 - np_exp (- epsilon / sensitivity)) /\
  (0 <=? 1 - np_exp (- epsilon / sensitivity)) = true /\
  (1 - np_exp (- epsilon / sensitivity) <=? 1) = true.
Proof.
  intros Hexp Fs Fe Ps Pe.
  destruct (positive_finite _ Fs Ps) as [ms [es Hs]].
  destruct (positive_finite _ Fe Pe) as [me [ee He]].
  assert (Hneg : (- epsilon / sensitivity <=? 0) = true).
  { rewrite leb_spec. change (Prim2SF 0) with (S754_zero false).
    apply SFleb_nonpos_zero.
    apply (div_sign _ _ true false me ms ee es); [|exact Hs].
    rewrite opp_spec, He. reflexivity. }
  split; [unfold scale; now rewrite (eqb_zero_finite _ _ _ _ He)|].
  split.
  { rewrite leb_spec. change (Prim2SF 0) with (S754_zero false).
    apply SFleb_zero_nonneg. apply (div_sign _ _ false false _ _ _ _ Hs He). }
  split; [unfold probability; now rewrite (eqb_zero_finite _ _ _ _ Hs)|].
  apply one_minus_unit; now apply Hexp.
Qed.

(** The calibrations of the two notebooks: sensitivity 1 and epsilon 0.5
    give the scale 2; sensitivity 1 and epsilon 1 give the probability
    0.6321205588285577. *)
Lemma calibration_correct_witness :
  scale 1 0.5 = Ok 2 /\
  probability exp_sample 1 1 = Ok 0x1.43a54e4e98864p-1.
Proof.
  assert (Hexp : forall x, (x <=? 0) = true ->
                   (0 <=? exp_sample x) = true /\ (exp_sample x <=? 1) = true).
  { intros x _. unfold exp_sample. destruct (x =? -1); split; reflexivity. }
  destruct (calibration_correct exp_sample 1 0.5 Hexp) as [H1 _]; try reflexivity.
  destruct (calibration_correct exp_sample 1 1 Hexp) as [_ [_ [H3 _]]]; try reflexivity.
  split; [exact H1 | exact H3].
Defined.

(** C2, as stated, fails in binary64.  The floats 2^-600 and 2^600 are
    finite and > 0; for sensitivity 2^-600 and epsilon 2^600 the scale
    computed is 0.0, which is not > 0 and is not the quotient 2^-1200;
    with the two exchanged the scale is [inf]. *)
Lemma scale_underflows_to_zero :
  is_finite 0x1p-600 = true /\ is_finite 0x1p+600 = true /\
  (0 <? 0x1p-600) = true /\ (0 <? 0x1p+600) = true /\
  scale 0x1p-600 0x1p+600 = Ok 0 /\
  (0 <? 0) = false /\
  scale 0x1p+600 0x1p-600 = Ok infinity.
Proof. repeat split. Qed.



End BinaryCalibration.

(** ** The epsilon grid in binary64 *)

Section BinaryGrid.

Import Floats.

Import Binary64.

Local Open Scope float_scope.



(** The number of points does not depend on [10**x]. *)
Lemma length_epsset (np_log10 pow10 : float -> float) (epsmin epsmax : float) (epscnt : Z) :
  option_map (@List.length float) (epsset np_log10 pow10 epsmin epsmax epscnt) =
  option_map (@List.length float)
             (epsset_exponents (np_log10 epsmin) (np_log10 epsmax) epscnt).
Proof.
  unfold epsset. destruct (epsset_exponents _ _ _) as [xs|]; [|reflexivity].
  cbn [option_map]. now rewrite length_map.
Qed.




(** X21. The number of points of the grid for epsmin=0.1, epsmax=10 and
    the counts 1 to 40: it is epscnt+1, except for the counts 9, 12 and
    21, where the quotient that gives the length rounds above an integer
    and the grid has epscnt+2 points. *)
Theorem epsset_point_counts :
  map (fun c : nat =>
         option_map (@List.length float) (epsset_exponents (-1) 1 (Z.of_nat c)))
      (List.seq 1 40) =
  map (fun c : nat =>
         Some (if existsb (Nat.eqb c) [9; 12; 21] then c + 2 else c + 1)%nat)
      (List.seq 1 40).
Proof. vm_compute. reflexivity. Qed.

End BinaryGrid.

(** ** The tradeoff simulation *)

Section TradeoffProperties.

Local Open Scope R_scope.

Import Tradeoff.

Lemma length_repeat_each (epsset : list R) (numrecs : nat) :
  List.length (repeat_each epsset numrecs) = (List.length epsset * numrecs)%nat.
Proof.
  unfold repeat_each. induction epsset as [|e l IH]; simpl; [reflexivity|].
  rewrite length_app, repeat_length, IH. reflexivity.
Qed.

(** One row per draw: [numrecs] rows for each epsilon. *)
Lemma length_simulate laplace (epsset : list R) (s : R) (numrecs : nat) :
  List.length (simulate laplace epsset s numrecs) = (List.length epsset * numrecs)%nat.
Proof.
  unfold simulate. rewrite length_map, length_combine, length_seq, Nat.min_id.
  apply length_repeat_each.
Qed.

Lemma nth_error_repeat_each (l : list R) (m k : nat) :
  (k < List.length l * m)%nat ->
  nth_error (repeat_each l m) k = nth_error l (k / m).
Proof.
  unfold repeat_each. revert k.
  induction l as [|e l IH]; intros k Hk; simpl in Hk; [lia|].
  assert (Hm : m <> 0%nat) by (intros ->; lia).
  cbn [flat_map].
  destruct (Nat.lt_ge_cases k m) as [Hlt|Hge].
  - rewrite nth_error_app1 by (now rewrite repeat_length).
    rewrite nth_error_repeat by exact Hlt.
    now rewrite Nat.div_small.
  - rewrite nth_error_app2 by (now rewrite repeat_length).
    rewrite repeat_length, IH by lia.
    replace k with ((k - m) + 1 * m)%nat at 2 by lia.
    rewrite Nat.div_add by exact Hm.
    now rewrite Nat.add_1_r.
Qed.

Lemma nth_error_combine_seq {A : Type} (l : list A) (a k : nat) :
  nth_error (combine (List.seq a (List.length l)) l) k =
  option_map (fun x => ((a + k)%nat, x)) (nth_error l k).
Proof.
  revert a k. induction l as [|x l IH]; intros a [|k]; simpl; try reflexivity.
  - now rewrite Nat.add_0_r.
  - rewrite IH. now rewrite Nat.add_succ_r.
Qed.

(** C9. The data frame of the simulation has one row for every draw,
    numrecs rows for each epsilon of the grid, and the L1 error recorded in
    the row of a draw is |noise|, the absolute value of the variate drawn
    for that row.  No true value enters the simulation: for every true
    value, |true - (true + noise)| is that same number. *)
Theorem L1error_is_abs_noise laplace (epsset : list R) (s : R) (numrecs : nat) :
  List.length (simulate laplace epsset s numrecs) = (List.length epsset * numrecs)%nat /\
  forall k : nat, (k < List.length epsset * numrecs)%nat ->
    exists r,
      nth_error (simulate laplace epsset s numrecs) k = Some r /\
      noise r = laplace k (scale r) /\
      L1error r = Rabs (noise r) /\
      forall t : R, Rabs (t - (t + noise r)) = L1error r.
Proof.
  split; [apply length_simulate|].
  intros k Hk.
  assert (Hm : numrecs <> 0%nat) by (intros ->; lia).
  assert (Hq : (k / numrecs < List.length epsset)%nat).
  { apply Nat.Div0.div_lt_upper_bound. lia. }
  destruct (nth_error epsset (k / numrecs)) as [e|] eqn:E;
    [|apply nth_error_None in E; lia].
  unfold simulate. rewrite nth_error_map, nth_error_combine_seq.
  rewrite (nth_error_repeat_each _ _ _ Hk), E.
  cbn [option_map fst snd Nat.add]. eexists. split; [reflexivity|].
  cbn [noise scale L1error].
  split; [reflexivity|]. split; [reflexivity|].
  intros t. replace (t - (t + laplace k (s / e))) with (- laplace k (s / e)) by ring.
  apply Rabs_Ropp.
Qed.

(** Three values of epsilon and two draws for each: the last of the six
    rows records the absolute value of its own draw. *)
Lemma L1error_is_abs_noise_witness :
  List.length (simulate (fun i b => b * INR i) [1 / 10; 1; 10] 1 2) = 6%nat /\
  exists r,
    nth_error (simulate (fun i b => b * INR i) [1 / 10; 1; 10] 1 2) 5 = Some r /\
    noise r = scale r * INR 5 /\
    L1error r = Rabs (noise r).
Proof.
  destruct (L1error_is_abs_noise (fun i b => b * INR i) [1 / 10; 1; 10] 1 2) as [H1 H2].
  split; [exact H1|].
  destruct (H2 5%nat) as [r [Hr [Hn [Hl _]]]].
  - apply Nat.ltb_lt. reflexivity.
  - exists r. split; [exact Hr|]. split; [exact Hn | exact Hl].
Defined.

End TradeoffProperties.

(** ** Clamping and the error *)

Lemma zip_with_map_l {A A' B C : Type} (f : A' -> B -> C) (g : A -> A')
  (xs : list A) (ys : list B) :
  zip_with f (map g xs) ys = zip_with (fun x y => f (g x) y) xs ys.
Proof.
  revert ys; induction xs as [|x xs IH]; intros [|y ys]; simpl; auto.
  now rewrite IH.
Qed.

Lemma zip_with_map_r {A B B' C : Type} (f : A -> B' -> C) (h : B -> B')
  (xs : list A) (ys : list B) :
  zip_with f xs (map h ys) = zip_with (fun x y => f x (h y)) xs ys.
Proof.
  revert ys; induction xs as [|x xs IH]; intros [|y ys]; simpl; auto.
  now rewrite IH.
Qed.

Lemma zip_with_nested_l {A B C D : Type} (f : C -> A -> D) (g : A -> B -> C)
  (xs : list A) (ys : list B) :
  zip_with f (zip_with g xs ys) xs = zip_with (fun x y => f (g x y) x) xs ys.
Proof.
  revert ys; induction xs as [|x xs IH]; intros [|y ys]; simpl; auto.
  now rewrite IH.
Qed.

Lemma cellwise_cellmap_l {A A' B C : Type} (f : A' -> B -> C) (g : A -> A')
  (a : list (list A)) (b : list (list B)) :
  cellwise f (cellmap g a) b = cellwise (fun x y => f (g x) y) a b.
Proof.
  unfold cellwise, cellmap. rewrite zip_with_map_l.
  apply zip_with_ext. intros r r'. apply zip_with_map_l.
Qed.

Lemma cellwise_cellmap_r {A B B' C : Type} (f : A -> B' -> C) (h : B -> B')
  (a : list (list A)) (b : list (list B)) :
  cellwise f a (cellmap h b) = cellwise (fun x y => f x (h y)) a b.
Proof.
  unfold cellwise, cellmap. rewrite zip_with_map_r.
  apply zip_with_ext. intros r r'. apply zip_with_map_r.
Qed.

Lemma cellwise_nested_l {A B C D : Type} (f : C -> A -> D) (g : A -> B -> C)
  (a : list (list A)) (b : list (list B)) :
  cellwise f (cellwise g a b) a = cellwise (fun x y => f (g x y) x) a b.
Proof.
  unfold cellwise. rewrite zip_with_nested_l.
  apply zip_with_ext. intros r r'. apply zip_with_nested_l.
Qed.

(** Two element-wise results over the same operands are related cell by
    cell as soon as the two operations are. *)
Lemma Forall2_zip_with {A B C D : Type} (R : C -> D -> Prop) (P : B -> Prop)
  (f : A -> B -> C) (g : A -> B -> D) (xs : list A) (ys : list B) :
  Forall P ys ->
  (forall x y, P y -> R (f x y) (g x y)) ->
  Forall2 R (zip_with f xs ys) (zip_with g xs ys).
Proof.
  intros Hys H. revert xs; induction Hys as [|y ys Hy _ IH]; intros [|x xs]; simpl;
    constructor; auto.
Qed.

Lemma Forall2_cellwise {A B C D : Type} (R : C -> D -> Prop) (P : B -> Prop)
  (f : A -> B -> C) (g : A -> B -> D) (a : list (list A)) (b : list (list B)) :
  all_cells P b ->
  (forall x y, P y -> R (f x y) (g x y)) ->
  Forall2 (Forall2 R) (cellwise f a b) (cellwise g a b).
Proof.
  intros Hb H. unfold cellwise.
  apply (Forall2_zip_with _ (Forall P)); [exact Hb|].
  intros r r' Hr'. now apply (Forall2_zip_with _ P).
Qed.

Lemma Forall2_zip_with_map {A B C D : Type} (R : C -> D -> Prop) (P : A -> Prop)
  (f : A -> B -> C) (g : B -> D) (xs : list A) (ys : list B) :
  List.length xs = List.length ys ->
  Forall P xs ->
  (forall x y, P x -> R (f x y) (g y)) ->
  Forall2 R (zip_with f xs ys) (map g ys).
Proof.
  intros Hlen Hxs H. revert ys Hlen.
  induction Hxs as [|x xs Hx _ IH]; intros [|y ys]; simpl; try discriminate.
  - constructor.
  - intros Hlen. injection Hlen as Hlen. constructor; auto.
Qed.

Lemma Forall2_cellwise_cellmap {A B C D : Type} (R : C -> D -> Prop) (P : A -> Prop)
  (f : A -> B -> C) (g : B -> D) (a : list (list A)) (b : list (list B)) :
  row_lengths a = row_lengths b ->
  all_cells P a ->
  (forall x y, P x -> R (f x y) (g y)) ->
  Forall2 (Forall2 R) (cellwise f a b) (cellmap g b).
Proof.
  intros Hlen Ha H. unfold cellwise, cellmap, row_lengths in *.
  revert b Hlen.
  induction Ha as [|r a Hr _ IH]; intros [|r' b]; simpl; try discriminate.
  - constructor.
  - intros Hlen. injection Hlen as Hr' Hlen. constructor; auto.
    now apply (Forall2_zip_with_map _ P).
Qed.

Lemma inject_Z_nonneg (t : Z) : 0 <= t -> (0 <= inject_Z t)%Q.
Proof. intros H. change 0%Q with (inject_Z 0). now rewrite <- Zle_Qle. Qed.

Lemma clamp_float_lt (q : Q) : (q < 0)%Q -> clamp_float q = 0%Q.
Proof.
  intros H. unfold clamp_float. now rewrite (proj2 (Qltb_lt q 0) H).
Qed.

Lemma clamp_float_ge (q : Q) : (0 <= q)%Q -> clamp_float q = q.
Proof.
  intros H. unfold clamp_float.
  destruct (Qltb q 0) eqn:E; [|reflexivity].
  apply Qltb_lt in E. exfalso. apply (Qlt_not_le _ _ E H).
Qed.

Lemma clamp_float_error (p q : Q) :
  (0 <= q -> Qabs (clamp_float p - q) <= Qabs (p - q))%Q.
Proof.
  intros Hq. destruct (Qlt_le_dec p 0) as [Hp|Hp].
  - rewrite (clamp_float_lt p Hp).
    rewrite (Qabs_neg (0 - q)), (Qabs_neg (p - q)) by Lqa.lra. Lqa.lra.
  - rewrite (clamp_float_ge p Hp). apply Qle_refl.
Qed.

Lemma clamp_float_noise (t n : Q) :
  (0 <= t -> Qabs (clamp_float (t + n) - t) <= Qabs n)%Q.
Proof.
  intros Ht. destruct (Qlt_le_dec (t + n) 0) as [Hp|Hp].
  - rewrite (clamp_float_lt _ Hp).
    rewrite (Qabs_neg (0 - t)), (Qabs_neg n) by Lqa.lra. Lqa.lra.
  - rewrite (clamp_float_ge _ Hp).
    assert (E : (t + n - t == n)%Q) by ring.
    rewrite (Qabs_wd _ _ E). apply Qle_refl.
Qed.

(** Setting negative cells to zero never increases the absolute error of a
    cell against a non-negative true table. *)
Lemma clamp_step_error (noisy : frame) (t : list (list Z)) :
  all_cells (fun z => 0 <= z) t ->
  frame_le (cell_errors (setitem_neg_zero noisy) (IntFrame t))
           (cell_errors noisy (IntFrame t)).
Proof.
  intros Ht. unfold frame_le, cell_errors.
  destruct noisy as [z|z]; cbn [setitem_neg_zero elementwise abs values].
  - rewrite !cellmap_cellmap, !cellmap_cellwise, cellwise_cellmap_l.
    apply (Forall2_cellwise _ (fun y => 0 <= y)); [exact Ht|].
    intros x y Hy. rewrite <- Zle_Qle. now apply clamp_int_error.
  - rewrite !cellmap_cellwise, cellwise_cellmap, cellwise_cellmap_r.
    apply (Forall2_cellwise _ (fun y => 0 <= y)); [exact Ht|].
    intros x y Hy. apply clamp_float_error. now apply inject_Z_nonneg.
Qed.

(** The error of the clamped table is at most the noise, cell by cell. *)
Lemma clamped_error_le_noise (t : list (list Z)) (noise : frame) :
  shape (IntFrame t) = shape noise ->
  all_cells (fun z => 0 <= z) t ->
  frame_le (cell_errors (setitem_neg_zero (raw_noisy (IntFrame t) noise)) (IntFrame t))
           (abs noise).
Proof.
  intros Hs Ht. unfold frame_le, cell_errors, raw_noisy.
  destruct noise as [n|n]; cbn [shape] in Hs;
    cbn [setitem_neg_zero elementwise abs values].
  - rewrite !cellmap_cellmap, !cellmap_cellwise, cellwise_nested_l.
    apply (Forall2_cellwise_cellmap _ (fun x => 0 <= x)); [exact Hs | exact Ht |].
    intros x y Hx. rewrite <- Zle_Qle, clamp_int_max. lia.
  - rewrite (cellwise_cellmap_l Qplus inject_Z t n), (cellmap_cellwise clamp_float),
      (cellwise_cellmap_r Qminus inject_Z), cellwise_nested_l, cellmap_cellwise.
    apply (Forall2_cellwise_cellmap _ (fun x => 0 <= x)); [exact Hs | exact Ht |].
    intros x y Hx. apply clamp_float_noise. now apply inject_Z_nonneg.
Qed.

(** ** Sums of comparable tables *)

Lemma row_sum_inject_Z (r : list Z) :
  (inject_Z (fold_right Z.add 0%Z r) == fold_right Qplus 0 (map inject_Z r))%Q.
Proof.
  induction r as [|x r IH]; simpl; [reflexivity|].
  rewrite inject_Z_plus, IH. reflexivity.
Qed.

Lemma total_inject_Z (rows : list (list Z)) :
  (inject_Z (total rows) == totalQ (cellmap inject_Z rows))%Q.
Proof.
  induction rows as [|r rows IH]; simpl; [reflexivity|].
  rewrite inject_Z_plus, IH, row_sum_inject_Z. reflexivity.
Qed.

Lemma series_sum_add_rows_Q (a b : list Q) :
  (series_sum Qplus 0 (add_rows Qplus a b) ==
   series_sum Qplus 0 a + series_sum Qplus 0 b)%Q.
Proof.
  unfold series_sum.
  revert b; induction a as [|x a IH]; intros [|y b]; simpl; try ring.
  rewrite IH. ring.
Qed.

Lemma sum_sum_value (a : frame) :
  (scalar_value (sum_sum a) == totalQ (values a))%Q.
Proof.
  destruct a as [rows|rows].
  - rewrite sum_sum_total. apply total_inject_Z.
  - cbn [sum_sum scalar_value values]. unfold column_sums.
    induction rows as [|r rows IH]; simpl; [reflexivity|].
    rewrite series_sum_add_rows_Q, IH. reflexivity.
Qed.

Lemma row_sum_le (r r' : list Q) :
  Forall2 Qle r r' -> (fold_right Qplus 0 r <= fold_right Qplus 0 r')%Q.
Proof.
  induction 1; simpl; [apply Qle_refl | now apply Qplus_le_compat].
Qed.

Lemma totalQ_le (a b : list (list Q)) :
  Forall2 (Forall2 Qle) a b -> (totalQ a <= totalQ b)%Q.
Proof.
  induction 1 as [|r r' a b Hr _ IH]; simpl; [apply Qle_refl|].
  apply Qplus_le_compat; [now apply row_sum_le | exact IH].
Qed.

Lemma sum_sum_le (a b : frame) :
  frame_le a b -> scalar_le (sum_sum a) (sum_sum b).
Proof.
  intros H. unfold scalar_le. rewrite !sum_sum_value. now apply totalQ_le.
Qed.

(** In the Laplace notebook the clamp follows the rounding: it does not
    increase the error of the rounded table. *)
Lemma laplace_clamp_step_error (t : list (list Z)) (noise : frame) :
  shape (IntFrame t) = shape noise ->
  all_cells (fun z => 0 <= z) t ->
  exists r,
    run_laplace (IntFrame t) noise = Ok r /\
    frame_le (errortab_value r)
             (cell_errors (astype_int (round (raw_noisy (IntFrame t) noise))) (IntFrame t)).
Proof.
  intros Hs Ht. eexists. split; [apply (run_laplace_ok _ _ Hs)|].
  cbn [errortab_value measured]. unfold publish_laplace.
  now apply clamp_step_error.
Qed.

(** C10, as the code has it.  For a true table with all cells >= 0,
    setting the negative cells of an integer noisy table to zero never
    increases the absolute error of a cell; this covers the noisy table of
    the Geometric notebook and the rounded table of the Laplace notebook.
    In the Geometric notebook, whose noise is integer and whose published
    table is the clamped noisy table, the error of every cell is at most
    |noise| and the total L1 error at most the sum of |noise|. *)
Theorem clamping_never_increases_error (t n : list (list Z)) :
  row_lengths t = row_lengths n ->
  all_cells (fun z => 0 <= z) t ->
  (forall z : list (list Z),
      frame_le (cell_errors (setitem_neg_zero (IntFrame z)) (IntFrame t))
               (cell_errors (IntFrame z) (IntFrame t))) /\
  (forall noisy : frame,
      frame_le (cell_errors (publish_laplace noisy) (IntFrame t))
               (cell_errors (astype_int (round noisy)) (IntFrame t))) /\
  exists r,
    run_geometric (IntFrame t) (IntFrame n) = Ok r /\
    noisytabpost_value r = setitem_neg_zero (raw_noisy (IntFrame t) (IntFrame n)) /\
    errortab_value r =
      cell_errors (setitem_neg_zero (raw_noisy (IntFrame t) (IntFrame n))) (IntFrame t) /\
    frame_le (errortab_value r) (abs (IntFrame n)) /\
    scalar_le (errorsum_value r) (sum_sum (abs (IntFrame n))).
Proof.
  intros Hs Ht.
  split; [intros z; now apply clamp_step_error|].
  split; [intros noisy; unfold publish_laplace; now apply clamp_step_error|].
  eexists. split; [apply (run_geometric_ok (IntFrame t) (IntFrame n) Hs)|].
  split; [reflexivity|].
  split; [reflexivity|].
  pose proof (clamped_error_le_noise t (IntFrame n) Hs Ht) as Hle.
  split; [exact Hle|].
  now apply sum_sum_le.
Qed.

(** The Unicorn Wrangler and IT Specialist rows with noise that drives a
    cell below zero: the errors are [[0, 0], [3, 3]], within the noise. *)
Lemma clamping_never_increases_error_witness :
  exists r,
    run_geometric (IntFrame [[0; 1]; [8; 5]]) (IntFrame [[-1; 0]; [3; -3]]) = Ok r /\
    noisytabpost_value r = IntFrame [[0; 1]; [11; 2]] /\
    errortab_value r = IntFrame [[0; 0]; [3; 3]] /\
    frame_le (errortab_value r) (abs (IntFrame [[-1; 0]; [3; -3]])) /\
    scalar_le (errorsum_value r) (sum_sum (abs (IntFrame [[-1; 0]; [3; -3]]))).
Proof.
  destruct (clamping_never_increases_error [[0; 1]; [8; 5]] [[-1; 0]; [3; -3]])
    as [_ [_ [r [H1 [H2 [H3 [H4 H5]]]]]]].
  - reflexivity.
  - unfold all_cells. repeat constructor; discriminate.
  - exists r. split; [exact H1|].
    split; [rewrite H2; reflexivity|].
    split; [rewrite H3; reflexivity|].
    split; assumption.
Defined.

(** C10, as stated, fails for the published table of the Laplace notebook,
    which is rounded before it is clamped: for the true cell 3 and the
    noise 0.75 the noisy cell 3.75 is published as 4, and the total L1
    error 1 exceeds the sum of |noise|, 0.75. *)
Lemma laplace_rounding_exceeds_noise :
  exists r,
    run_laplace (IntFrame [[3]]) (FloatFrame [[3 # 4]]) = Ok r /\
    noisytab_value r = FloatFrame [[15 # 4]] /\
    noisytabpost_value r = IntFrame [[4]] /\
    errorsum_value r = IntVal 1 /\
    (scalar_value (sum_sum (abs (FloatFrame [[3 # 4]]))) == 3 # 4)%Q /\
    ~ scalar_le (errorsum_value r) (sum_sum (abs (FloatFrame [[3 # 4]]))).
Proof.
  eexists. split; [vm_compute; reflexivity|].
  split; [reflexivity|].
  split; [reflexivity|].
  split; [reflexivity|].
  split; [reflexivity|].
  unfold scalar_le. cbn. intros H. vm_compute in H. now apply H.
Qed.

(** * Further properties of the notebooks *)

(** ** Shapes and objects *)

(** X1. For an integer true table, when the noise has its shape, both
    notebooks run to the end (the Geometric one on integer noise, the
    Laplace one on noise of any dtype), and the noisy table, the published
    table, the table of absolute errors and the table of relative errors
    all have the shape of the true table. *)
Theorem run_preserves_shape (t n : list (list Z)) (m : frame) :
  row_lengths t = row_lengths n ->
  row_lengths t = shape m ->
  exists g l,
    run_geometric (IntFrame t) (IntFrame n) = Ok g /\
    run_laplace (IntFrame t) m = Ok l /\
    shape (noisytab_value g) = row_lengths t /\
    shape (noisytabpost_value g) = row_lengths t /\
    shape (errortab_value g) = row_lengths t /\
    row_lengths (pcterrortab_value g) = row_lengths t /\
    shape (noisytab_value l) = row_lengths t /\
    shape (noisytabpost_value l) = row_lengths t /\
    shape (errortab_value l) = row_lengths t /\
    row_lengths (pcterrortab_value l) = row_lengths t.
Proof.
  intros Hn Hm.
  set (T := IntFrame t).
  assert (HT : shape T = row_lengths t) by reflexivity.
  assert (Hg : shape (publish_geometric (raw_noisy T (IntFrame n))) = shape T)
    by (unfold publish_geometric; rewrite shape_setitem_neg_zero;
        now apply shape_raw_noisy).
  assert (Hl : shape (publish_laplace (raw_noisy T m)) = shape T)
    by (unfold publish_laplace;
        rewrite shape_setitem_neg_zero, shape_astype_int, shape_round;
        now apply shape_raw_noisy).
  assert (He : forall p, shape p = shape T -> shape (cell_errors p T) = shape T)
    by (intros p Hp; unfold cell_errors; rewrite shape_abs, shape_elementwise; assumption).
  assert (Hr : forall p, shape p = shape T ->
                 row_lengths (cellwise truediv (values (cell_errors p T)) (values T)) = shape T).
  { intros p Hp. rewrite row_lengths_cellwise; rewrite !shape_values; auto.
    all: rewrite ?He; auto. }
  do 2 eexists.
  split; [apply (run_geometric_ok T (IntFrame n) Hn)|].
  split; [apply (run_laplace_ok T m Hm)|].
  cbn [noisytab_value noisytabpost_value errortab_value pcterrortab_value measured].
  rewrite <- HT.
  repeat split; auto using shape_raw_noisy.
Qed.

Lemma run_preserves_shape_witness :
  exists g l,
    run_geometric (IntFrame [[0; 1]; [8; 5]]) (IntFrame [[-1; 0]; [3; -3]]) = Ok g /\
    run_laplace (IntFrame [[0; 1]; [8; 5]])
                (FloatFrame [[-3 # 2; 1 # 4]; [5 # 2; -13 # 4]]) = Ok l /\
    shape (noisytabpost_value g) = [2; 2]%nat /\
    shape (noisytabpost_value l) = [2; 2]%nat.
Proof.
  destruct (run_preserves_shape [[0; 1]; [8; 5]] [[-1; 0]; [3; -3]]
              (FloatFrame [[-3 # 2; 1 # 4]; [5 # 2; -13 # 4]]) eq_refl eq_refl)
    as [g [l [H1 [H2 [_ [H4 [_ [_ [_ [H8 _]]]]]]]]]].
  exists g, l. repeat split; assumption.
Defined.

(** X2. Neither notebook modifies its inputs: when the cells have run on
    an integer true table, the object of the true table and the object of
    the noise hold what they held before.  In the Geometric notebook the
    two names [noisytab] and [noisytabpost] denote one object, in the
    Laplace notebook two. *)
Theorem cells_leave_inputs_unchanged (t n : list (list Z)) (m : frame) :
  row_lengths t = row_lengths n ->
  row_lengths t = shape m ->
  (exists nm h,
      geometric_cell 0%nat 1%nat [IntFrame t; IntFrame n] = Ok (nm, h) /\
      nth_error h 0 = Some (IntFrame t) /\ nth_error h 1 = Some (IntFrame n) /\
      noisytab nm = noisytabpost nm) /\
  (exists nm h,
      laplace_cell 0%nat 1%nat [IntFrame t; m] = Ok (nm, h) /\
      nth_error h 0 = Some (IntFrame t) /\ nth_error h 1 = Some m /\
      noisytab nm <> noisytabpost nm).
Proof.
  intros Hn Hm.
  set (T := IntFrame t).
  set (N := IntFrame n).
  assert (Hg : shape (publish_geometric (raw_noisy T N)) = shape T)
    by (unfold publish_geometric; rewrite shape_setitem_neg_zero;
        now apply shape_raw_noisy).
  assert (Hl : shape (publish_laplace (raw_noisy T m)) = shape T)
    by (unfold publish_laplace;
        rewrite shape_setitem_neg_zero, shape_astype_int, shape_round;
        now apply shape_raw_noisy).
  split.
  - unfold geometric_cell, measure_error,
      setitem_neg_zero_inplace, seq, load, store, new, lift, ret.
    cbn [nth_error List.length app update].
    rewrite (add_same_shape T N Hn).
    cbn [nth_error List.length app update].
    fold (publish_geometric (raw_noisy T N)).
    rewrite (sub_published _ _ Hg).
    cbn [nth_error List.length app update].
    rewrite div_same_shape
      by (rewrite shape_abs, shape_elementwise; assumption).
    do 2 eexists. split; [reflexivity|]. repeat split.
  - unfold laplace_cell, measure_error,
      setitem_neg_zero_inplace, seq, load, store, new, lift, ret.
    cbn [nth_error List.length app update].
    rewrite (add_same_shape T m Hm).
    cbn [nth_error List.length app update].
    fold (publish_laplace (raw_noisy T m)).
    rewrite (sub_published _ _ Hl).
    cbn [nth_error List.length app update].
    rewrite div_same_shape
      by (rewrite shape_abs, shape_elementwise; assumption).
    do 2 eexists. split; [reflexivity|]. repeat split. cbn. discriminate.
Qed.

Lemma cells_leave_inputs_unchanged_witness :
  (exists nm h,
      geometric_cell 0%nat 1%nat [IntFrame [[0; 1]]; IntFrame [[-1; 0]]] = Ok (nm, h) /\
      nth_error h 0 = Some (IntFrame [[0; 1]]) /\
      nth_error h 1 = Some (IntFrame [[-1; 0]]) /\
      noisytab nm = noisytabpost nm) /\
  (exists nm h,
      laplace_cell 0%nat 1%nat [IntFrame [[0; 1]]; FloatFrame [[-3 # 2; 1 # 4]]] = Ok (nm, h) /\
      nth_error h 0 = Some (IntFrame [[0; 1]]) /\
      nth_error h 1 = Some (FloatFrame [[-3 # 2; 1 # 4]]) /\
      noisytab nm <> noisytabpost nm).
Proof.
  apply (cells_leave_inputs_unchanged [[0; 1]] [[-1; 0]] (FloatFrame [[-3 # 2; 1 # 4]]));
    reflexivity.
Defined.

(** X3. In the Laplace notebook, for every true table and noise of one
    shape, the name [noisytab] still holds the raw noisy table
    truetab+noise after the published table has been rounded and clamped. *)
Theorem laplace_run_keeps_raw_noisy_table (t n : frame) :
  shape t = shape n ->
  exists r, run_laplace t n = Ok r /\
            add t n = Ok (noisytab_value r) /\
            noisytabpost_value r = publish_laplace (noisytab_value r).
Proof.
  intros H. eexists. split; [apply (run_laplace_ok _ _ H)|].
  split; [apply (add_same_shape _ _ H) | reflexivity].
Qed.

Lemma laplace_run_keeps_raw_noisy_table_witness :
  exists r, run_laplace unicorn_truetab (FloatFrame [[-3 # 2; 1 # 4]]) = Ok r /\
            noisytab_value r = FloatFrame [[-3 # 2; 5 # 4]] /\
            noisytabpost_value r = IntFrame [[0; 1]].
Proof.
  destruct (laplace_run_keeps_raw_noisy_table unicorn_truetab (FloatFrame [[-3 # 2; 1 # 4]]) eq_refl)
    as [r [H1 [H2 H3]]].
  exists r. split; [exact H1|].
  assert (E : noisytab_value r = FloatFrame [[-3 # 2; 5 # 4]]).
  { change (add unicorn_truetab (FloatFrame [[-3 # 2; 1 # 4]]))
      with (Ok (FloatFrame [[-3 # 2; 5 # 4]])) in H2.
    injection H2 as H2. symmetry. exact H2. }
  split; [exact E|]. rewrite H3, E. reflexivity.
Defined.

(** ** The error measures on integer tables *)

Lemma measure_error_int (t p : list (list Z)) :
  row_lengths p = row_lengths t ->
  measure_error 0%nat 1%nat 1%nat [IntFrame t; IntFrame p] = Ok (measured_names t p).
Proof.
  intros H.
  unfold measure_error, seq, load, new, lift, ret.
  cbn [nth_error List.length app].
  rewrite (sub_published (IntFrame p) (IntFrame t) H).
  cbn [nth_error List.length app].
  rewrite div_same_shape
    by (rewrite shape_abs, shape_elementwise; assumption).
  reflexivity.
Qed.

Lemma cell_errors_int (p t : list (list Z)) :
  cell_errors (IntFrame p) (IntFrame t) =
  IntFrame (cellwise (fun x y => Z.abs (x - y)) p t).
Proof. unfold cell_errors. cbn. f_equal. apply cellmap_cellwise. Qed.

Lemma cellmap_id_on {A : Type} (P : A -> Prop) (f : A -> A) (a : list (list A)) :
  all_cells P a -> (forall x, P x -> f x = x) -> cellmap f a = a.
Proof.
  intros Ha H. unfold cellmap.
  induction Ha as [|r a Hr _ IH]; simpl; [reflexivity|].
  f_equal; [|exact IH].
  induction Hr as [|x r Hx _ IHr]; simpl; [reflexivity|].
  now rewrite (H x Hx), IHr.
Qed.

Lemma zip_with_const_l {A B C : Type} (g : B -> C) (xs : list A) (ys : list B) :
  List.length xs = List.length ys -> zip_with (fun _ y => g y) xs ys = map g ys.
Proof.
  revert ys; induction xs as [|x xs IH]; intros [|y ys]; simpl; try discriminate; auto.
  intros H. injection H as H. now rewrite IH.
Qed.

Lemma cellwise_const_l {A B C : Type} (g : B -> C) (a : list (list A)) (b : list (list B)) :
  row_lengths a = row_lengths b -> cellwise (fun _ y => g y) a b = cellmap g b.
Proof.
  unfold cellwise, cellmap, row_lengths.
  revert b; induction a as [|r a IH]; intros [|r' b]; simpl; try discriminate; auto.
  intros H. injection H as Hr H. now rewrite zip_with_const_l, IH.
Qed.

(** X4. In the Geometric notebook, when no cell of truetab+noise is
    negative the published table is truetab+noise itself, the absolute
    error of each cell is |noise| and the total L1 error is the sum of
    |noise|. *)
Theorem nonnegative_noisy_table_is_published (t n : list (list Z)) :
  row_lengths t = row_lengths n ->
  all_cells (fun z => 0 <= z) (cellwise Z.add t n) ->
  exists r,
    run_geometric (IntFrame t) (IntFrame n) = Ok r /\
    noisytabpost_value r = IntFrame (cellwise Z.add t n) /\
    errortab_value r = IntFrame (cellmap Z.abs n) /\
    errorsum_value r = IntVal (total (cellmap Z.abs n)).
Proof.
  intros Hs Hn.
  assert (Hp : publish_geometric (raw_noisy (IntFrame t) (IntFrame n)) =
               IntFrame (cellwise Z.add t n)).
  { cbn. f_equal. apply (cellmap_id_on _ _ _ Hn).
    intros x Hx. rewrite clamp_int_max. lia. }
  assert (He : cell_errors (IntFrame (cellwise Z.add t n)) (IntFrame t) =
               IntFrame (cellmap Z.abs n)).
  { rewrite cell_errors_int, cellwise_nested_l. f_equal.
    rewrite <- (cellwise_const_l Z.abs t n Hs).
    apply cellwise_ext. intros x y. f_equal. lia. }
  eexists. split; [apply (run_geometric_ok (IntFrame t) (IntFrame n) Hs)|].
  rewrite Hp. cbn [noisytabpost_value errortab_value errorsum_value measured].
  rewrite He. split; [reflexivity|]. split; [reflexivity|].
  apply sum_sum_total.
Qed.

Lemma nonnegative_noisy_table_is_published_witness :
  exists r,
    run_geometric (IntFrame [[18; 19]; [0; 1]]) (IntFrame [[-3; 2]; [0; -1]]) = Ok r /\
    noisytabpost_value r = IntFrame [[15; 21]; [0; 0]] /\
    errortab_value r = IntFrame [[3; 2]; [0; 1]] /\
    errorsum_value r = IntVal 6.
Proof.
  apply (nonnegative_noisy_table_is_published [[18; 19]; [0; 1]] [[-3; 2]; [0; -1]]).
  - reflexivity.
  - unfold all_cells. repeat constructor; discriminate.
Defined.

Lemma row_sum_zero_iff (r : list Z) :
  Forall (fun z => 0 <= z) r ->
  (fold_right Z.add 0 r = 0 <-> Forall (fun z => z = 0) r).
Proof.
  induction 1 as [|x r Hx Hr IH]; simpl.
  - split; auto.
  - assert (0 <= fold_right Z.add 0 r)
      by (clear IH; induction Hr; simpl; lia).
    split.
    + intros E. constructor; [lia|]. apply IH. lia.
    + intros E. inversion E as [|? ? E1 E2]; subst.
      apply IH in E2. lia.
Qed.

Lemma row_sum_nonneg (r : list Z) :
  Forall (fun z => 0 <= z) r -> 0 <= fold_right Z.add 0 r.
Proof. induction 1; simpl; lia. Qed.

Lemma total_nonneg (a : list (list Z)) :
  all_cells (fun z => 0 <= z) a -> 0 <= total a.
Proof.
  induction 1 as [|r a Hr _ IH]; simpl; [lia|].
  apply row_sum_nonneg in Hr. lia.
Qed.

Lemma total_zero_iff (a : list (list Z)) :
  all_cells (fun z => 0 <= z) a ->
  (total a = 0 <-> all_cells (fun z => z = 0) a).
Proof.
  unfold all_cells. induction 1 as [|r a Hr Ha IH]; simpl.
  - split; auto.
  - pose proof (row_sum_nonneg r Hr). pose proof (total_nonneg a Ha).
    split.
    + intros E. constructor.
      * apply (row_sum_zero_iff r Hr). lia.
      * apply IH. lia.
    + intros E. inversion E as [|? ? E1 E2]; subst.
      apply (row_sum_zero_iff r Hr) in E1. apply IH in E2. lia.
Qed.

Lemma all_cells_cellwise {A B C : Type} (P : C -> Prop) (Q : B -> Prop)
  (f : A -> B -> C) (a : list (list A)) (b : list (list B)) :
  all_cells Q b -> (forall x y, Q y -> P (f x y)) -> all_cells P (cellwise f a b).
Proof.
  intros Hb H. unfold all_cells, cellwise.
  revert a; induction Hb as [|r' b Hr' _ IH]; intros [|r a]; simpl; constructor; auto.
  clear IH. revert r; induction Hr' as [|y r' Hy _ IHr]; intros [|x r]; simpl;
    constructor; auto.
Qed.

Lemma abs_errors_nonneg (p t : list (list Z)) :
  all_cells (fun z => 0 <= z) (cellwise (fun x y => Z.abs (x - y)) p t).
Proof.
  unfold all_cells, cellwise.
  revert t; induction p as [|r p IH]; intros [|r' t]; simpl; constructor; auto.
  clear IH. revert r'; induction r as [|x r IHr]; intros [|y r']; simpl;
    constructor; auto. lia.
Qed.

Lemma row_errors_zero_iff (r r' : list Z) :
  List.length r = List.length r' ->
  (Forall (fun z => z = 0) (zip_with (fun x y => Z.abs (x - y)) r r') <-> r = r').
Proof.
  revert r'; induction r as [|x r IH]; intros [|y r']; simpl; try discriminate.
  - split; auto.
  - intros H. injection H as H. split.
    + intros E. inversion E as [|? ? E1 E2]; subst.
      apply (IH r' H) in E2. subst. f_equal. lia.
    + intros E. injection E as E1 E2. subst. constructor; [lia|].
      now apply IH.
Qed.

Lemma errors_zero_iff (p t : list (list Z)) :
  row_lengths p = row_lengths t ->
  (all_cells (fun z => z = 0) (cellwise (fun x y => Z.abs (x - y)) p t) <-> p = t).
Proof.
  unfold all_cells, cellwise, row_lengths.
  revert t; induction p as [|r p IH]; intros [|r' t]; simpl; try discriminate.
  - split; auto.
  - intros H. injection H as Hr H. split.
    + intros E. inversion E as [|? ? E1 E2]; subst.
      apply (row_errors_zero_iff r r' Hr) in E1. apply (IH t H) in E2. now subst.
    + intros E. injection E as E1 E2. subst. constructor.
      * now apply row_errors_zero_iff.
      * now apply IH.
Qed.

Lemma errorsum_int (p t : list (list Z)) :
  sum_sum (cell_errors (IntFrame p) (IntFrame t)) =
  IntVal (total (cellwise (fun x y => Z.abs (x - y)) p t)).
Proof. rewrite cell_errors_int. apply sum_sum_total. Qed.

Lemma errorsum_zero_iff (p t : list (list Z)) :
  row_lengths p = row_lengths t ->
  (total (cellwise (fun x y => Z.abs (x - y)) p t) = 0 <-> p = t).
Proof.
  intros H. rewrite (total_zero_iff _ (abs_errors_nonneg p t)).
  now apply errors_zero_iff.
Qed.

(** X5. For a published integer table of the shape of the true table, the
    total L1 error is 0 exactly when the published table is the true
    table. *)
Theorem errorsum_zero_iff_exact (p t : list (list Z)) :
  row_lengths p = row_lengths t ->
  exists nm h,
    measure_error 0%nat 1%nat 1%nat [IntFrame t; IntFrame p] = Ok (nm, h) /\
    (errorsum nm = IntVal 0 <-> p = t).
Proof.
  intros H. do 2 eexists. split; [apply (measure_error_int t p H)|].
  cbn [errorsum measured_names fst]. rewrite errorsum_int.
  rewrite <- (errorsum_zero_iff p t H).
  split; [intros E; now injection E | intros ->; reflexivity].
Qed.

Lemma errorsum_zero_iff_exact_witness :
  exists nm h,
    measure_error 0%nat 1%nat 1%nat [IntFrame [[0; 1]]; IntFrame [[0; 2]]] = Ok (nm, h) /\
    errorsum nm <> IntVal 0.
Proof.
  destruct (errorsum_zero_iff_exact [[0; 2]] [[0; 1]] eq_refl) as [nm [h [H1 H2]]].
  exists nm, h. split; [exact H1|].
  intros E. apply H2 in E. discriminate E.
Defined.

Lemma total_all_zero (t : list (list Z)) :
  all_cells (fun z => z = 0) t -> total t = 0.
Proof.
  intros H. apply total_zero_iff; [|exact H].
  unfold all_cells in *.
  eapply Forall_impl; [|exact H].
  intros r Hr. eapply Forall_impl; [|exact Hr]. intros z ->. lia.
Qed.

(** X6. When every cell of the true table is 0 (a population without any
    valid record, say) the relative L1 error is computed without an
    exception: it is [nan] when the published table is the true table and
    [+inf] otherwise. *)
Theorem errorrel_of_zero_table (p t : list (list Z)) :
  row_lengths p = row_lengths t ->
  all_cells (fun z => z = 0) t ->
  exists nm h,
    measure_error 0%nat 1%nat 1%nat [IntFrame t; IntFrame p] = Ok (nm, h) /\
    truesum nm = IntVal 0 /\
    (p = t -> errorrel nm = NaN) /\
    (p <> t -> errorrel nm = PosInf).
Proof.
  intros H Ht. do 2 eexists. split; [apply (measure_error_int t p H)|].
  cbn [truesum errorrel measured_names fst].
  rewrite errorsum_int, sum_sum_total, (total_all_zero t Ht).
  cbn [scalar_mul scalar_value].
  pose proof (total_nonneg _ (abs_errors_nonneg p t)) as Hn.
  rewrite truediv_relative_error by lia.
  split; [reflexivity|].
  unfold spec_relative_error. cbn [Z.eqb andb].
  split.
  - intros E. apply (errorsum_zero_iff p t H) in E. rewrite E. reflexivity.
  - intros E.
    destruct (Z.eqb_spec (100 * total (cellwise (fun x y => Z.abs (x - y)) p t)) 0) as [E0|E0];
      [|reflexivity].
    exfalso. apply E. apply (errorsum_zero_iff p t H). lia.
Qed.

Lemma errorrel_of_zero_table_witness :
  exists nm h,
    measure_error 0%nat 1%nat 1%nat [IntFrame [[0; 0]]; IntFrame [[0; 2]]] = Ok (nm, h) /\
    truesum nm = IntVal 0 /\
    errorrel nm = PosInf.
Proof.
  destruct (errorrel_of_zero_table [[0; 2]] [[0; 0]] eq_refl) as [nm [h [H1 [H2 [_ H4]]]]].
  - unfold all_cells. repeat constructor.
  - exists nm, h. split; [exact H1|]. split; [exact H2|].
    apply H4. discriminate.
Defined.

Lemma Qdiv_nonneg (a b : Q) : (0 <= a -> 0 <= b -> 0 <= a / b)%Q.
Proof.
  intros Ha Hb. unfold Qdiv.
  apply Qmult_le_0_compat; [exact Ha|]. now apply Qinv_le_0_compat.
Qed.

(** X7. For a true table with all cells >= 0 and a published integer
    table of its shape, no relative error is negative: each cell is
    [nan], [+inf] or a finite number >= 0, never [-inf]. *)
Theorem relative_errors_nonnegative (p t : list (list Z)) :
  row_lengths p = row_lengths t ->
  all_cells (fun z => 0 <= z) t ->
  exists nm h,
    measure_error 0%nat 1%nat 1%nat [IntFrame t; IntFrame p] = Ok (nm, h) /\
    all_cells relative_error_nonneg (pcterrortab nm).
Proof.
  intros H Ht. do 2 eexists. split; [apply (measure_error_int t p H)|].
  cbn [pcterrortab measured_names fst]. rewrite cell_errors_int.
  cbn [values]. rewrite cellmap_cellwise, cellwise_nested_cellmap.
  apply (all_cells_cellwise _ (fun y => 0 <= y)); [exact Ht|].
  intros x y Hy. rewrite truediv_relative_error by lia.
  unfold spec_relative_error.
  destruct (y =? 0), (Z.abs (x - y) =? 0); cbn; try exact I;
    try (apply Qle_refl);
    apply Qdiv_nonneg; apply inject_Z_nonneg; lia.
Qed.

Lemma relative_errors_nonnegative_witness :
  exists nm h,
    measure_error 0%nat 1%nat 1%nat [IntFrame [[0; 4]]; IntFrame [[1; 3]]] = Ok (nm, h) /\
    all_cells relative_error_nonneg (pcterrortab nm).
Proof.
  apply (relative_errors_nonnegative [[1; 3]] [[0; 4]]).
  - reflexivity.
  - unfold all_cells. repeat constructor; discriminate.
Defined.

(** X8. On integer noise the two notebooks agree: rounding and conversion
    leave an integer table as it is, so the Laplace cells publish the
    table and report the errors that the Geometric cells do. *)
Theorem notebooks_agree_on_integer_noise (t n : list (list Z)) :
  row_lengths t = row_lengths n ->
  exists g l,
    run_geometric (IntFrame t) (IntFrame n) = Ok g /\
    run_laplace (IntFrame t) (IntFrame n) = Ok l /\
    noisytabpost_value l = noisytabpost_value g /\
    errortab_value l = errortab_value g /\
    pcterrortab_value l = pcterrortab_value g /\
    errorsum_value l = errorsum_value g /\
    errorrel_value l = errorrel_value g.
Proof.
  intros H. do 2 eexists.
  split; [apply (run_geometric_ok (IntFrame t) (IntFrame n) H)|].
  split; [apply (run_laplace_ok (IntFrame t) (IntFrame n) H)|].
  repeat split.
Qed.

Lemma notebooks_agree_on_integer_noise_witness :
  exists g l,
    run_geometric scenario1_truetab scenario1_noise = Ok g /\
    run_laplace scenario1_truetab scenario1_noise = Ok l /\
    noisytabpost_value l = noisytabpost_value g /\
    errortab_value l = errortab_value g /\
    pcterrortab_value l = pcterrortab_value g /\
    errorsum_value l = errorsum_value g /\
    errorrel_value l = errorrel_value g.
Proof.
  apply (notebooks_agree_on_integer_noise
           [[18; 19]; [13; 16]; [10; 10]; [8; 5]; [0; 1]]
           [[0; -1]; [-3; 1]; [-1; -2]; [3; -3]; [0; 0]]).
  reflexivity.
Defined.

(** ** Rounding in the Laplace notebook *)

Lemma Qltb_ge (x y : Q) : Qltb x y = false -> (y <= x)%Q.
Proof.
  intros H. apply Qnot_lt_le. intros Hlt. apply Qltb_lt in Hlt. congruence.
Qed.

Lemma round_half_even_bound (q : Q) :
  (q - (1 # 2) <= inject_Z (round_half_even q) /\
   inject_Z (round_half_even q) <= q + (1 # 2))%Q.
Proof.
  unfold round_half_even.
  pose proof (Qfloor_le q) as Hlo.
  pose proof (Qlt_floor q) as Hhi. rewrite inject_Z_plus in Hhi.
  change (inject_Z 1) with 1%Q in Hhi.
  destruct (Qltb (q - inject_Z (Qfloor q)) (1 # 2)) eqn:E1.
  - apply Qltb_lt in E1. split; Lqa.lra.
  - apply Qltb_ge in E1.
    destruct (Qltb (1 # 2) (q - inject_Z (Qfloor q))) eqn:E2.
    + rewrite inject_Z_plus. change (inject_Z 1) with 1%Q. split; Lqa.lra.
    + apply Qltb_ge in E2.
      destruct (Z.even (Qfloor q)).
      * split; Lqa.lra.
      * rewrite inject_Z_plus. change (inject_Z 1) with 1%Q. split; Lqa.lra.
Qed.

Lemma trunc_inject_Z (z : Z) : trunc (inject_Z z) = z.
Proof.
  unfold trunc. destruct (Qltb (inject_Z z) 0); [apply Qceiling_Z | apply Qfloor_Z].
Qed.

Lemma Forall2_cellmap_l {A B : Type} (R : B -> A -> Prop) (P : A -> Prop) (f : A -> B)
  (a : list (list A)) :
  all_cells P a ->
  (forall x, P x -> R (f x) x) ->
  Forall2 (Forall2 R) (cellmap f a) a.
Proof.
  intros Ha H. unfold cellmap, all_cells in *.
  induction Ha as [|r a Hr _ IH]; simpl; constructor; [|exact IH].
  induction Hr as [|x r Hx _ IHr]; simpl; constructor; auto.
Qed.

Lemma rounded_clamped_near (y : Q) :
  (Qabs (inject_Z (Z.max (round_half_even y) 0) - clamp_float y) <= 1 # 2)%Q.
Proof.
  destruct (round_half_even_bound y) as [Hlo Hhi].
  set (z := round_half_even y) in *.
  apply Qabs_Qle_condition.
  destruct (Qlt_le_dec y 0) as [Hy|Hy].
  - rewrite (clamp_float_lt y Hy).
    assert (Hz : z <= 0).
    { destruct (Z_lt_le_dec 0 z) as [Hz|Hz]; [|exact Hz]. exfalso.
      assert (Hz' : (inject_Z 1 <= inject_Z z)%Q) by (rewrite <- Zle_Qle; lia).
      change (inject_Z 1) with 1%Q in Hz'. Lqa.lra. }
    rewrite Z.max_r by exact Hz. change (inject_Z 0) with 0%Q. split; Lqa.lra.
  - rewrite (clamp_float_ge y Hy).
    assert (Hz : 0 <= z).
    { destruct (Z_lt_le_dec z 0) as [Hz|Hz]; [|exact Hz]. exfalso.
      assert (Hz' : (inject_Z z <= inject_Z (-1))%Q) by (rewrite <- Zle_Qle; lia).
      change (inject_Z (-1)) with (-1 # 1)%Q in Hz'. Lqa.lra. }
    rewrite Z.max_l by exact Hz. split; Lqa.lra.
Qed.

(** X9. The post-processing of the Laplace notebook, on a float noisy
    table whose cells are within the range of a 32-bit integer: a
    published cell is max(round(noisy), 0) with ties rounded to the even
    integer, and it differs from the clamped noisy cell max(noisy, 0) by at
    most 1/2. *)
Theorem laplace_published_within_half (q : list (list Q)) :
  all_cells (fun y => (Qabs y <= 2147483647)%Q) q ->
  publish_laplace (FloatFrame q) =
    IntFrame (cellmap (fun y => Z.max (round_half_even y) 0) q) /\
  Forall2 (Forall2 (fun p y => (Qabs (p - clamp_float y) <= 1 # 2)%Q))
          (values (publish_laplace (FloatFrame q))) q.
Proof.
  intros Hq.
  assert (Hp : publish_laplace (FloatFrame q) =
               IntFrame (cellmap (fun y => Z.max (round_half_even y) 0) q)).
  { unfold publish_laplace. cbn [round astype_int setitem_neg_zero]. f_equal.
    rewrite !cellmap_cellmap. apply cellmap_ext. intros y.
    now rewrite trunc_inject_Z, clamp_int_max. }
  split; [exact Hp|].
  rewrite Hp. cbn [values]. rewrite cellmap_cellmap.
  apply (Forall2_cellmap_l _ (fun y => (Qabs y <= 2147483647)%Q)); [exact Hq|].
  intros y _. apply rounded_clamped_near.
Qed.

Lemma laplace_published_within_half_witness :
  publish_laplace (FloatFrame [[5 # 2; -5 # 2]; [-1 # 4; 15 # 4]]) =
    IntFrame [[2; 0]; [0; 4]] /\
  Forall2 (Forall2 (fun p y => (Qabs (p - clamp_float y) <= 1 # 2)%Q))
          (values (publish_laplace (FloatFrame [[5 # 2; -5 # 2]; [-1 # 4; 15 # 4]])))
          [[5 # 2; -5 # 2]; [-1 # 4; 15 # 4]]%Q.
Proof.
  destruct (laplace_published_within_half [[5 # 2; -5 # 2]; [-1 # 4; 15 # 4]]%Q)
    as [H1 H2].
  - unfold all_cells. repeat constructor; discriminate.
  - split; [rewrite H1; reflexivity | exact H2].
Defined.

(** ** The true table and its records *)

Lemma count_cell_cons (r : Population.person) (recs : list Population.person)
  (occ sex : string) :
  Population.count_cell (r :: recs) occ sex =
  Population.count_cell recs occ sex +
  (if String.eqb (Population.Occupation r) occ && String.eqb (Population.Sex r) sex
   then 1 else 0).
Proof.
  unfold Population.count_cell. cbn [filter].
  destruct (String.eqb (Population.Occupation r) occ && String.eqb (Population.Sex r) sex);
    cbn [List.length]; rewrite ?Nat2Z.inj_succ;
    generalize (Z.of_nat (List.length
      (filter (fun r0 => String.eqb (Population.Occupation r0) occ
                         && String.eqb (Population.Sex r0) sex) recs)));
    intros c; lia.
Qed.

Lemma row_sum_map_add {B : Type} (f g : B -> Z) (ss : list B) :
  fold_right Z.add 0 (map (fun s => f s + g s) ss) =
  fold_right Z.add 0 (map (fun s => f s) ss) + fold_right Z.add 0 (map (fun s => g s) ss).
Proof. induction ss as [|s ss IHs]; simpl; lia. Qed.

Lemma total_tabulate_add {A B : Type} (f g : A -> B -> Z) (os : list A) (ss : list B) :
  total (map (fun o => map (fun s => f o s + g o s) ss) os) =
  total (map (fun o => map (fun s => f o s) ss) os) +
  total (map (fun o => map (fun s => g o s) ss) os).
Proof.
  induction os as [|o os IH]; simpl; [reflexivity|].
  rewrite IH, (row_sum_map_add (f o) (g o)). lia.
Qed.

Lemma cellwise_tabulate {A B C D E : Type} (h : C -> D -> E) (f : A -> B -> C)
  (g : A -> B -> D) (os : list A) (ss : list B) :
  cellwise h (map (fun o => map (fun s => f o s) ss) os)
             (map (fun o => map (fun s => g o s) ss) os) =
  map (fun o => map (fun s => h (f o s) (g o s)) ss) os.
Proof.
  unfold cellwise. induction os as [|o os IH]; simpl; [reflexivity|].
  rewrite IH. f_equal. clear IH.
  induction ss as [|s ss IHs]; simpl; [reflexivity|]. now rewrite IHs.
Qed.

Lemma tabulate_ext {A B C : Type} (f g : A -> B -> C) (os : list A) (ss : list B) :
  (forall o s, f o s = g o s) ->
  map (fun o => map (fun s => f o s) ss) os = map (fun o => map (fun s => g o s) ss) os.
Proof.
  intros H. apply map_ext. intros o. apply map_ext. intros s. apply H.
Qed.

(** A record is counted in one cell when its labels are valid and in none
    otherwise. *)
Lemma record_counted_once (r : Population.person) :
  total (map (fun occ =>
                map (fun sex =>
                       if String.eqb (Population.Occupation r) occ
                          && String.eqb (Population.Sex r) sex
                       then 1 else 0) Population.sexvalid) Population.occvalid) =
  if valid_record r then 1 else 0.
Proof.
  unfold valid_record.
  cbn [Population.occvalid Population.sexvalid map total fold_right existsb].
  destruct (String.eqb_spec (Population.Occupation r) "Statistician") as [E1|E1];
  destruct (String.eqb_spec (Population.Occupation r) "Economist") as [E2|E2];
  destruct (String.eqb_spec (Population.Occupation r) "Geographer") as [E3|E3];
  destruct (String.eqb_spec (Population.Occupation r) "IT Specialist") as [E4|E4];
  destruct (String.eqb_spec (Population.Occupation r) "Unicorn Wrangler") as [E5|E5];
  try congruence;
  destruct (String.eqb_spec (Population.Sex r) "M") as [S1|S1];
  destruct (String.eqb_spec (Population.Sex r) "F") as [S2|S2];
  try congruence; reflexivity.
Qed.

Lemma filter_valid_cons (r : Population.person) (recs : list Population.person) :
  Z.of_nat (List.length (filter valid_record (r :: recs))) =
  Z.of_nat (List.length (filter valid_record recs)) + (if valid_record r then 1 else 0).
Proof.
  cbn [filter]. destruct (valid_record r); cbn [List.length]; rewrite ?Nat2Z.inj_succ;
    generalize (Z.of_nat (List.length (filter valid_record recs))); intros c; lia.
Qed.

(** X10. The sum of the true table is the number of records whose
    occupation and sex are both valid labels: every such record is counted
    in exactly one cell, records with another label are dropped by the
    reindexing, and an empty population gives the sum 0. *)
Theorem truesum_counts_valid_records (myrecs : list Population.person) :
  sum_sum (Population.truetab myrecs) =
  IntVal (Z.of_nat (List.length (filter valid_record myrecs))).
Proof.
  unfold Population.truetab. rewrite sum_sum_total. f_equal.
  induction myrecs as [|r recs IH]; [reflexivity|].
  rewrite filter_valid_cons, <- IH, <- record_counted_once, <- total_tabulate_add.
  f_equal. apply tabulate_ext. intros occ sex. apply count_cell_cons.
Qed.

(** X11. Adding one record to the population changes the true table by at
    most 1 in L1 norm, which is the sensitivity the notebooks set: the L1
    distance between the two tables is 1 when the record's labels are
    valid and 0 otherwise. *)
Theorem truetab_sensitivity_one (r : Population.person) (recs : list Population.person) :
  sum_sum (cell_errors (Population.truetab (r :: recs)) (Population.truetab recs)) =
  IntVal (if valid_record r then 1 else 0).
Proof.
  unfold Population.truetab. rewrite cell_errors_int, sum_sum_total. f_equal.
  rewrite cellwise_tabulate, <- record_counted_once. f_equal.
  apply tabulate_ext. intros occ sex. rewrite count_cell_cons.
  destruct (String.eqb (Population.Occupation r) occ && String.eqb (Population.Sex r) sex);
    lia.
Qed.

(** ** The grid and the rows of the simulation *)

Section SimulationProperties.

Local Open Scope R_scope.

Import Tradeoff.

(** X17. The data frame of the simulation has numrecs rows per epsilon, in
    the order of the grid: row k carries the epsilon of index k/numrecs,
    the given sensitivity, the scale sensitivity/epsilon, the variate
    drawn for that scale and its absolute value as L1 error. *)
Theorem simulate_row laplace (epsset : list R) (s : R) (numrecs k : nat) :
  (k < List.length epsset * numrecs)%nat ->
  exists e,
    nth_error epsset (k / numrecs) = Some e /\
    nth_error (simulate laplace epsset s numrecs) k =
    Some {| epsilon := e;
            sensitivity := s;
            scale := s / e;
            noise := laplace k (s / e);
            L1error := Rabs (laplace k (s / e)) |}.
Proof.
  intros Hk.
  assert (Hm : numrecs <> 0%nat) by (intros ->; lia).
  assert (Hq : (k / numrecs < List.length epsset)%nat).
  { apply Nat.Div0.div_lt_upper_bound. lia. }
  destruct (nth_error epsset (k / numrecs)) as [e|] eqn:E;
    [|apply nth_error_None in E; lia].
  exists e. split; [reflexivity|].
  unfold simulate. rewrite nth_error_map, nth_error_combine_seq.
  rewrite (nth_error_repeat_each _ _ _ Hk), E. reflexivity.
Qed.

Lemma simulate_row_witness :
  exists e,
    nth_error [1 / 10; 1; 10] (5 / 2) = Some e /\
    nth_error (simulate (fun i b => b * INR i) [1 / 10; 1; 10] 1 2) 5 =
    Some {| epsilon := e;
            sensitivity := 1;
            scale := 1 / e;
            noise := (fun i b => b * INR i) 5%nat (1 / e);
            L1error := Rabs ((fun i b => b * INR i) 5%nat (1 / e)) |}.
Proof.
  apply (simulate_row (fun i b => b * INR i) [1 / 10; 1; 10] 1 2 5).
  apply Nat.ltb_lt. reflexivity.
Defined.

End SimulationProperties.

(** ** The two-sided geometric noise *)

Lemma zip_with_swap {A B C : Type} (f : A -> B -> C) (xs : list A) (ys : list B) :
  zip_with f xs ys = zip_with (fun y x => f x y) ys xs.
Proof.
  revert ys; induction xs as [|x xs IH]; intros [|y ys]; simpl; auto.
  now rewrite IH.
Qed.

Lemma cellwise_swap {A B C : Type} (f : A -> B -> C) (a : list (list A)) (b : list (list B)) :
  cellwise f a b = cellwise (fun y x => f x y) b a.
Proof.
  unfold cellwise. rewrite zip_with_swap.
  apply zip_with_ext. intros r r'. apply zip_with_swap.
Qed.

Lemma Forall2_cellwise_both {A B C D : Type} (R : C -> D -> Prop)
  (P : A -> Prop) (Q : B -> Prop)
  (f : A -> B -> C) (g : A -> B -> D) (a : list (list A)) (b : list (list B)) :
  all_cells P a -> all_cells Q b ->
  (forall x y, P x -> Q y -> R (f x y) (g x y)) ->
  Forall2 (Forall2 R) (cellwise f a b) (cellwise g a b).
Proof.
  intros Ha Hb H. unfold cellwise, all_cells in *.
  revert b Hb. induction Ha as [|r a Hr _ IH]; intros b Hb; [constructor|].
  destruct Hb as [|r' b Hr' Hb]; simpl; constructor; auto.
  clear IH Hb. revert r' Hr'. induction Hr as [|x r Hx _ IHr]; intros r' Hr'; [constructor|].
  destruct Hr' as [|y r' Hy Hr']; simpl; constructor; auto.
Qed.

(** X20. The Geometric noise is the difference of two arrays of draws, each
    draw at least 1: exchanging the two arrays negates the noise, and the
    absolute value of a noise cell is smaller than the larger of its two
    draws. *)
Theorem geometric_noise_symmetric (first second : list (list Z)) :
  row_lengths first = row_lengths second ->
  all_cells (fun z => 1 <= z) first ->
  all_cells (fun z => 1 <= z) second ->
  exists n,
    Sampling.geometric_noise (IntFrame first) (IntFrame second) = Ok (IntFrame n) /\
    Sampling.geometric_noise (IntFrame second) (IntFrame first) =
      Ok (IntFrame (cellmap Z.opp n)) /\
    Forall2 (Forall2 (fun v m => Z.abs v < m)) n (cellwise Z.max first second).
Proof.
  intros Hs H1 H2. exists (cellwise Z.sub first second).
  unfold Sampling.geometric_noise.
  split; [apply (sub_published (IntFrame first) (IntFrame second) Hs)|].
  split.
  - rewrite (sub_published (IntFrame second) (IntFrame first)) by (symmetry; exact Hs).
    cbn [elementwise]. do 2 f_equal.
    rewrite cellmap_cellwise, cellwise_swap.
    apply cellwise_ext. intros x y. lia.
  - apply (Forall2_cellwise_both _ (fun z => 1 <= z) (fun z => 1 <= z)); auto.
    intros x y Hx Hy. lia.
Qed.

Lemma geometric_noise_symmetric_witness :
  exists n,
    Sampling.geometric_noise (IntFrame [[1; 4]; [2; 2]]) (IntFrame [[3; 1]; [2; 5]]) =
      Ok (IntFrame n) /\
    Sampling.geometric_noise (IntFrame [[3; 1]; [2; 5]]) (IntFrame [[1; 4]; [2; 2]]) =
      Ok (IntFrame (cellmap Z.opp n)) /\
    Forall2 (Forall2 (fun v m => Z.abs v < m)) n
            (cellwise Z.max [[1; 4]; [2; 2]] [[3; 1]; [2; 5]]).
Proof.
  apply (geometric_noise_symmetric [[1; 4]; [2; 2]] [[3; 1]; [2; 5]]).
  - reflexivity.
  - unfold all_cells. repeat constructor; discriminate.
  - unfold all_cells. repeat constructor; discriminate.
Defined.
